(** * serve-here: the request-resolution pipeline of [node/serve-here.js]

    A shallow embedding of the request handler built by [createServer], of
    [generateDirectoryListing], of the [MIME_TYPES] table and of the Node.js
    library functions they call ([decodeURIComponent], [String.prototype.split],
    [includes], [toLowerCase], [path.join], [path.dirname], [path.extname],
    [Array.prototype.sort]), followed by the properties of the handler.

    Strings are byte strings: a JavaScript string is represented by its UTF-8
    encoding.  The characters the handler looks at ([%], [?], [/], [.], NUL and
    the ASCII letters) are single bytes that never occur inside a multi-byte
    UTF-8 sequence, so searching and splitting on them gives the same answer
    on bytes as on UTF-16 code units.  Paths follow the POSIX flavour of
    Node's [path] module. *)

From Stdlib Require Import ZArith Ascii Sorting.Sorted Sorting.Permutation.
From stdpp Require Import base list strings gmap sorting pretty.

Local Open Scope Z_scope.

(** ** Strings *)

Module Str.

Definition slash : ascii := "/"%char.
Definition dot : ascii := "."%char.
Definition nul : ascii := ascii_of_nat 0.
(** The double-quote character, used by the HTML templates. *)
Definition dq : string := String (ascii_of_nat 34) "".

(** [s.startsWith(pre)] *)
Fixpoint isPrefix (pre s : string) : bool :=
  match pre, s with
  | "", _ => true
  | String _ _, "" => false
  | String a pre', String b s' => bool_decide (a = b) && isPrefix pre' s'
  end.

(** [hay.includes(needle)] *)
Fixpoint includes (needle hay : string) : bool :=
  isPrefix needle hay ||
  match hay with
  | "" => false
  | String _ hay' => includes needle hay'
  end.

(** [s.split(sep)] for a one-character separator: never empty, the pieces
    contain no separator. *)
Fixpoint split (sep : ascii) (s : string) : list string :=
  match s with
  | "" => [""]
  | String c s' =>
      if decide (c = sep) then "" :: split sep s'
      else match split sep s' with
           | [] => [String c ""]
           | w :: ws => String c w :: ws
           end
  end.

(** [parts.join(sep)] *)
Fixpoint join (sep : string) (parts : list string) : string :=
  match parts with
  | [] => ""
  | [w] => w
  | w :: ws => w +:+ sep +:+ join sep ws
  end.

Definition startsWith (c : ascii) (s : string) : bool :=
  match s with
  | String c' _ => bool_decide (c' = c)
  | "" => false
  end.

Fixpoint endsWith (c : ascii) (s : string) : bool :=
  match s with
  | "" => false
  | String c' "" => bool_decide (c' = c)
  | String _ s' => endsWith c s'
  end.

Definition lowerChar (c : ascii) : ascii :=
  let n := N_of_ascii c in
  if ((65 <=? n) && (n <=? 90))%N then ascii_of_N (n + 32) else c.

(** [s.toLowerCase()] on the ASCII letters.  The only character outside
    ASCII that JavaScript lowers to an ASCII letter is the Kelvin sign
    (to [k]), and no key of [MIME_TYPES] contains a [k]. *)
Fixpoint toLowerCase (s : string) : string :=
  match s with
  | "" => ""
  | String c s' => String (lowerChar c) (toLowerCase s')
  end.

(** [s.slice(from, to)] for [0 <= from]. *)
Definition slice (from to : Z) (s : string) : string :=
  String.substring (Z.to_nat from) (Z.to_nat (to - from)) s.

Definition charAt (i : Z) (s : string) : option ascii :=
  if i <? 0 then None else String.get (Z.to_nat i) s.

Definition len (s : string) : Z := Z.of_nat (String.length s).

End Str.

(** ** [decodeURIComponent] *)

Module URI.

Definition hexval (c : ascii) : option N :=
  let n := N_of_ascii c in
  if ((48 <=? n) && (n <=? 57))%N then Some (n - 48)%N
  else if ((65 <=? n) && (n <=? 70))%N then Some (n - 55)%N
  else if ((97 <=? n) && (n <=? 102))%N then Some (n - 87)%N
  else None.

Definition between (lo hi b : N) : bool := ((lo <=? b) && (b <=? hi))%N.

(** What a decoded lead octet [b] asks of the octets that follow it: how
    many continuation octets, and the range of the first of them
    (well-formed UTF-8: no overlong form, no surrogate, nothing above
    U+10FFFF).  [None]: [b] cannot start a character. *)
Definition lead (b : N) : option (nat * N * N) :=
  if (b <? 128)%N then Some (0%nat, 128, 191)%N
  else if between 194 223 b then Some (1%nat, 128, 191)%N
  else if (b =? 224)%N then Some (2%nat, 160, 191)%N
  else if between 225 236 b then Some (2%nat, 128, 191)%N
  else if (b =? 237)%N then Some (2%nat, 128, 159)%N
  else if between 238 239 b then Some (2%nat, 128, 191)%N
  else if (b =? 240)%N then Some (3%nat, 144, 191)%N
  else if between 241 243 b then Some (3%nat, 128, 191)%N
  else if (b =? 244)%N then Some (3%nat, 128, 143)%N
  else None.

(** The Decode operation of ECMAScript with an empty reserved set.  [need]
    continuation octets are still owed to the character being decoded, the
    next of them within [lo..hi].  [None] is the [URIError] the operation
    throws: a [%] not followed by two hexadecimal digits, or escapes that
    are not the UTF-8 encoding of a character. *)
Fixpoint decode (need : nat) (lo hi : N) (s : string) : option string :=
  match s with
  | "" => match need with O => Some "" | S _ => None end
  | String c rest =>
      if decide (c = "%"%char) then
        match rest with
        | String h1 (String h2 rest') =>
            match hexval h1, hexval h2 with
            | Some a, Some b =>
                let B := (16 * a + b)%N in
                match need with
                | O =>
                    match lead B with
                    | Some (n, lo', hi') =>
                        String (ascii_of_N B) <$> decode n lo' hi' rest'
                    | None => None
                    end
                | S n =>
                    if between lo hi B
                    then String (ascii_of_N B) <$> decode n 128 191 rest'
                    else None
                end
            | _, _ => None
            end
        | _ => None
        end
      else
        match need with
        | O => String c <$> decode O 128 191 rest
        | S _ => None
        end
  end.

Definition decodeURIComponent (s : string) : option string :=
  decode O 128 191 s.

End URI.

(** ** Node's [path] module (POSIX) *)

Module Path.
Import Str.

(** A path segment that names something: not empty, not [.], not [..]. *)
Definition isName (seg : string) : bool :=
  negb (bool_decide (seg = "")) && negb (bool_decide (seg = "."))
  && negb (bool_decide (seg = "..")).

(** [normalizeString] walks the path character by character and acts at
    the end of each segment; [step] is what it does to its result, kept as
    the list of the segments appended so far, for the segment [seg].  An
    empty segment and the segment [.] leave the result as it is.  The
    segment [..] removes the last segment of the result, unless there is
    none or it is [..] itself: then [..] is appended when the path may
    climb above its start (a relative path) and dropped otherwise.  Any
    other segment, also one that merely contains dots, is appended. *)
Definition step (allowAboveRoot : bool) (res : list string) (seg : string)
  : list string :=
  if bool_decide (seg = "") || bool_decide (seg = ".") then res
  else if bool_decide (seg = "..") then
    match reverse res with
    | last :: before =>
        if bool_decide (last = "..")
        then (if allowAboveRoot then res ++ [".."] else res)
        else reverse before
    | [] => if allowAboveRoot then [".."] else []
    end
  else res ++ [seg].

Definition normalizeSegments (allowAboveRoot : bool) (segs : list string)
  : list string :=
  foldl (step allowAboveRoot) [] segs.

(** [path.normalize] *)
Definition normalize (path : string) : string :=
  if bool_decide (path = "") then "."
  else
    let isAbsolute := startsWith slash path in
    let trailingSeparator := endsWith slash path in
    let body := Str.join "/" (normalizeSegments (negb isAbsolute) (split slash path)) in
    if bool_decide (body = "") then
      if isAbsolute then "/" else if trailingSeparator then "./" else "."
    else
      (if isAbsolute then "/" else "") +:+ body +:+
      (if trailingSeparator then "/" else "").

(** [path.join(a, b)]: the non-empty arguments are glued with a slash and
    the result is normalized. *)
Definition join (a b : string) : string :=
  match bool_decide (a = ""), bool_decide (b = "") with
  | true, true => "."
  | true, false => normalize b
  | false, true => normalize a
  | false, false => normalize (a +:+ "/" +:+ b)
  end.

(** The names a path goes through, from the top. *)
Definition segments (path : string) : list string :=
  filter (λ seg, seg ≠ "") (split slash path).

(** The names an absolute path goes through once [.] and [..] are
    resolved. *)
Definition resolved (path : string) : list string :=
  normalizeSegments false (split slash path).

(** [path] is [root] or lies below it. *)
Definition inside (root path : string) : Prop :=
  segments root `prefix_of` segments path.

(** The backwards scan of [path.dirname]: from index [i] down to 1, the
    index of the slash that ends the parent, or -1. *)
Fixpoint dirname_scan (i : nat) (matchedSlash : bool) (path : string) : Z :=
  match i with
  | O => -1
  | S i' =>
      if bool_decide (String.get i path = Some slash) then
        if negb matchedSlash then Z.of_nat i
        else dirname_scan i' matchedSlash path
      else dirname_scan i' false path
  end.

(** [path.dirname] *)
Definition dirname (path : string) : string :=
  if bool_decide (path = "") then "."
  else
    let hasRoot := startsWith slash path in
    let end_ := dirname_scan (String.length path - 1) true path in
    if end_ =? -1 then (if hasRoot then "/" else ".")
    else if hasRoot && (end_ =? 1) then "//"
    else slice 0 end_ path.

Record ext_state := {
  startDot : Z; startPart : Z; end_ : Z; matchedSlash : bool; preDotState : Z
}.

(** The backwards scan of [path.extname] over the indices below [n]. *)
Fixpoint extname_scan (n : nat) (st : ext_state) (path : string) : ext_state :=
  match n with
  | O => st
  | S i =>
      let code := String.get i path in
      if bool_decide (code = Some slash) then
        if negb (matchedSlash st) then
          {| startDot := startDot st; startPart := Z.of_nat i + 1;
             end_ := end_ st; matchedSlash := matchedSlash st;
             preDotState := preDotState st |}
        else extname_scan i st path
      else
        let st1 :=
          if end_ st =? -1 then
            {| startDot := startDot st; startPart := startPart st;
               end_ := Z.of_nat i + 1; matchedSlash := false;
               preDotState := preDotState st |}
          else st in
        let st2 :=
          if bool_decide (code = Some dot) then
            if startDot st1 =? -1 then
              {| startDot := Z.of_nat i; startPart := startPart st1;
                 end_ := end_ st1; matchedSlash := matchedSlash st1;
                 preDotState := preDotState st1 |}
            else if negb (preDotState st1 =? 1) then
              {| startDot := startDot st1; startPart := startPart st1;
                 end_ := end_ st1; matchedSlash := matchedSlash st1;
                 preDotState := 1 |}
            else st1
          else if negb (startDot st1 =? -1) then
            {| startDot := startDot st1; startPart := startPart st1;
               end_ := end_ st1; matchedSlash := matchedSlash st1;
               preDotState := -1 |}
          else st1 in
        extname_scan i st2 path
  end.

(** [path.extname] *)
Definition extname (path : string) : string :=
  let st := extname_scan (String.length path)
              {| startDot := -1; startPart := 0; end_ := -1;
                 matchedSlash := true; preDotState := 0 |} path in
  if (startDot st =? -1) || (end_ st =? -1) || (preDotState st =? 0)
     || ((preDotState st =? 1) && (startDot st =? end_ st - 1)
         && (startDot st =? startPart st + 1))
  then ""
  else slice (startDot st) (end_ st) path.

End Path.

(** ** The content-type table *)

Definition MIME_TYPES : gmap string string :=
  list_to_map [
    (".html", "text/html");
    (".css", "text/css");
    (".js", "text/javascript");
    (".json", "application/json");
    (".png", "image/png");
    (".jpg", "image/jpeg");
    (".jpeg", "image/jpeg");
    (".gif", "image/gif");
    (".svg", "image/svg+xml");
    (".ico", "image/x-icon");
    (".webp", "image/webp");
    (".mp4", "video/mp4");
    (".webm", "video/webm");
    (".mp3", "audio/mpeg");
    (".wav", "audio/wav");
    (".pdf", "application/pdf");
    (".txt", "text/plain");
    (".xml", "application/xml");
    (".woff", "font/woff");
    (".woff2", "font/woff2");
    (".ttf", "font/ttf");
    (".md", "text/markdown")
].

(** [MIME_TYPES[ext] || 'application/octet-stream'], with [ext] the lowered
    extension of the served path.  Every value of the table is a non-empty
    string, so the fallback is taken exactly when the key is absent. *)
Definition mimeTypeOf (filePath : string) : string :=
  let ext := Str.toLowerCase (Path.extname filePath) in
  default "application/octet-stream" (MIME_TYPES !! ext).

(** The table as the specification words it: extension, without its dot,
    and content type. *)
Definition specContentTypes : list (string * string) := [
  ("html", "text/html"); ("css", "text/css"); ("js", "text/javascript");
  ("json", "application/json"); ("png", "image/png"); ("jpg", "image/jpeg");
  ("jpeg", "image/jpeg"); ("gif", "image/gif"); ("svg", "image/svg+xml");
  ("ico", "image/x-icon"); ("webp", "image/webp"); ("mp4", "video/mp4");
  ("webm", "video/webm"); ("mp3", "audio/mpeg"); ("wav", "audio/wav");
  ("pdf", "application/pdf"); ("txt", "text/plain"); ("xml", "application/xml");
  ("woff", "font/woff"); ("woff2", "font/woff2"); ("ttf", "font/ttf");
  ("md", "text/markdown")
].

Definition dotted (entry : string * string) : string * string :=
  ("." +:+ entry.1, entry.2).

(** ** The file system and the effects of a request *)

Inductive errno := ENOENT | EACCES | ENOTDIR | EISDIR | EIO.

(** What [fs.Stats] gives the handler: [isDirectory()], [size], [mtime]
    (milliseconds since the epoch). *)
Record Stats := { isDirectory : bool; size : N; mtime : Z }.

(** The file system as the process sees it during one request: what each
    system call answers for a path.  The three answers are independent, so
    a file that vanishes or becomes unreadable between [stat] and
    [readFile] is covered. *)
Record FS := {
  sys_stat : string → errno + Stats;
  sys_readFile : string → errno + string;
  sys_readdir : string → errno + list string
}.

(** What can be thrown: [decodeURIComponent]'s [URIError], the [TypeError]
    of the [fs] functions for a path with a NUL byte, and the error of a
    synchronous [fs] call. *)
Inductive exn :=
  | URIError
  | InvalidArgValue (path : string)
  | FsError (code : errno) (path : string).

Inductive event :=
  | EvLog (method urlPath : string)
  | EvStat (path : string)
  | EvExists (path : string)
  | EvReadFile (path : string)
  | EvReaddir (path : string).

(** The path an event hands to the file system. *)
Definition fsPath (e : event) : option string :=
  match e with
  | EvLog _ _ => None
  | EvStat p | EvExists p | EvReadFile p | EvReaddir p => Some p
  end.

(** What [readdir] can return for a child: a name without a slash. *)
Definition entryName (file : string) : bool :=
  Path.isName file && negb (Str.includes "/" file).

(** A file system whose directories hold such names only. *)
Definition namesOk (fs : FS) : Prop :=
  ∀ path files, sys_readdir fs path = inr files →
                Forall (λ file, entryName file = true) files.

(** Every path the events of [t] hand to the file system is inside
    [root]. *)
Definition traceInside (root : string) (t : list event) : Prop :=
  Forall (λ e, ∀ path, fsPath e = Some path → Path.inside root path) t.

(** A computation records the events it performed, in order, and either
    returns or throws. *)
Definition M (A : Type) : Type := list event * (exn + A).

Global Instance M_ret : MRet M := λ A x, ([], inr x).
Global Instance M_bind : MBind M := λ A B f m,
  match m with
  | (t, inl e) => (t, inl e)
  | (t, inr x) => let '(t', r) := f x in (t ++ t', r)
  end.
Definition throw {A} (e : exn) : M A := ([], inl e).
Definition emit (e : event) : M unit := ([e], inr tt).

(** [xs.map(f)] for an [f] with effects: left to right, stopping at the
    first throw. *)
Fixpoint mapM {A B} (f : A → M B) (xs : list A) : M (list B) :=
  match xs with
  | [] => mret []
  | x :: xs' => y ← f x; ys ← mapM f xs'; mret (y :: ys)
  end.

Module Fs.
Definition hasNul (path : string) : bool :=
  Str.includes (String Str.nul "") path.

(** [fs.stat(path, callback)]: the callback receives the error or the
    stats; a NUL byte in the path throws before any system call. *)
Definition stat (fs : FS) (path : string) : M (errno + Stats) :=
  if hasNul path then throw (InvalidArgValue path)
  else emit (EvStat path);; mret (sys_stat fs path).

(** [fs.readFile(path, callback)] *)
Definition readFile (fs : FS) (path : string) : M (errno + string) :=
  if hasNul path then throw (InvalidArgValue path)
  else emit (EvReadFile path);; mret (sys_readFile fs path).

(** [fs.existsSync(path)]: never throws, [false] on any failure; the path
    exists when it can be looked at. *)
Definition existsSync (fs : FS) (path : string) : M bool :=
  if hasNul path then mret false
  else emit (EvExists path);;
       mret (match sys_stat fs path with inr _ => true | inl _ => false end).

(** [fs.statSync(path)] *)
Definition statSync (fs : FS) (path : string) : M Stats :=
  if hasNul path then throw (InvalidArgValue path)
  else emit (EvStat path);;
       match sys_stat fs path with
       | inr st => mret st
       | inl code => throw (FsError code path)
       end.

(** [fs.readdirSync(path)] *)
Definition readdirSync (fs : FS) (path : string) : M (list string) :=
  if hasNul path then throw (InvalidArgValue path)
  else emit (EvReaddir path);;
       match sys_readdir fs path with
       | inr names => mret names
       | inl code => throw (FsError code path)
       end.
End Fs.

(** [Array.prototype.sort(compare)]: a stable sort; [compare a b > 0] puts
    [a] after [b]. *)
Section Sort.
Context {A : Type} (compare : A → A → Z).

Fixpoint insert_sorted (x : A) (l : list A) : list A :=
  match l with
  | [] => [x]
  | y :: l' => if compare x y <=? 0 then x :: l else y :: insert_sorted x l'
  end.

Fixpoint sort (l : list A) : list A :=
  match l with
  | [] => []
  | x :: l' => insert_sorted x (sort l')
  end.

(** [a] may stand before [b]. *)
Definition before (a b : A) : Prop := compare a b ≤ 0.
End Sort.

(** The response written by [res.writeHead(status, {'Content-Type': ...})]
    and [res.end(body)]. *)
Record response := { status : Z; contentType : string; body : string }.

(** ** Directory listings *)

Module Html.
Import Str.

(** The style sheet of the listing page. *)
Definition style : string := "  <style>
    * { margin: 0; padding: 0; box-sizing: border-box; }
    body {
      font-family: -apple-system, BlinkMacSystemFont, 'Segoe UI', sans-serif;
      padding: 2rem;
      background: #f5f5f5;
    }
    .container {
      max-width: 1200px;
      margin: 0 auto;
      background: white;
      border-radius: 8px;
      box-shadow: 0 2px 8px rgba(0,0,0,0.1);
      padding: 2rem;
    }
    h1 {
      color: #333;
      margin-bottom: 1.5rem;
      font-size: 1.5rem;
    }
    table {
      width: 100%;
      border-collapse: collapse;
    }
    th {
      text-align: left;
      padding: 0.75rem;
      background: #f8f9fa;
      font-weight: 600;
      border-bottom: 2px solid #dee2e6;
    }
    td {
      padding: 0.75rem;
      border-bottom: 1px solid #e9ecef;
    }
    tr:hover {
      background: #f8f9fa;
    }
    a {
      color: #0066cc;
      text-decoration: none;
    }
    a:hover {
      text-decoration: underline;
    }
    .path {
      color: #666;
      font-size: 0.9rem;
      font-family: monospace;
    }
  </style>".

(** The row of the synthetic parent entry, linking to [href]. *)
Definition parentRow (href : string) : string :=
  "<tr><td><a href=" +:+ dq +:+ href +:+ dq +:+
  ">📁 ..</a></td><td>-</td><td>-</td></tr>".

(** The row of one child. *)
Definition row (href : string) (isDir : bool) (name size modified : string)
  : string :=
  "
    <tr>
      <td><a href=" +:+ dq +:+ href +:+ dq +:+ ">" +:+
  (if isDir then "📁" else "📄") +:+ " " +:+ name +:+
  (if isDir then "/" else "") +:+ "</a></td>
      <td>" +:+ size +:+ "</td>
      <td>" +:+ modified +:+ "</td>
    </tr>
  ".

(** What precedes the table body. *)
Definition pageHead (dirPath urlPath : string) : string :=
  "
<!DOCTYPE html>
<html>
<head>
  <meta charset=" +:+ dq +:+ "UTF-8" +:+ dq +:+ ">
  <meta name=" +:+ dq +:+ "viewport" +:+ dq +:+ " content=" +:+ dq +:+
  "width=device-width, initial-scale=1.0" +:+ dq +:+ ">
  <title>Index of " +:+ urlPath +:+ "</title>
" +:+ style +:+ "
</head>
<body>
  <div class=" +:+ dq +:+ "container" +:+ dq +:+ ">
    <h1>Index of " +:+ urlPath +:+ "</h1>
    <p class=" +:+ dq +:+ "path" +:+ dq +:+ ">" +:+ dirPath +:+ "</p>
    <table>
      <thead>
        <tr>
          <th>Name</th>
          <th>Size</th>
          <th>Modified</th>
        </tr>
      </thead>
      <tbody>
        ".

(** What separates the parent row from the rows of the children. *)
Definition pageSep : string := "
        ".

(** What follows the table body. *)
Definition pageFoot : string := "
      </tbody>
    </table>
  </div>
</body>
</html>
  ".

(** The listing page: the parent row (or nothing), then the rows of the
    children. *)
Definition page (dirPath urlPath parent rows : string) : string :=
  pageHead dirPath urlPath +:+ parent +:+ pageSep +:+ rows +:+ pageFoot.

End Html.

(** One child of the listed directory, as built by the [files.map]
    callback. *)
Record Item := {
  name : string; href : string; isDir : bool; sizeText : string; modified : Z
}.

Section Server.
(** Three functions of the host are left open.  [formatBytes] is the
    repository's own helper, but it is floating-point arithmetic
    ([Math.log], [Math.round]) and only fills the size column;
    [Date.prototype.toLocaleString] and [String.prototype.localeCompare]
    depend on the locale of the process. *)
Context (formatBytes : N → string).
Context (toLocaleString : Z → string).
Context (localeCompare : string → string → Z).

(** The object the callback of [files.map] returns for the child [file]
    with the stats [stat]. *)
Definition itemOf (urlPath file : string) (stat : Stats) : Item :=
  let isDir := isDirectory stat in
  let href := Path.join urlPath file in
  let size := if isDir then "-" else formatBytes (size stat) in
  {| name := file; href := href; isDir := isDir; sizeText := size;
     modified := mtime stat |}.

(** The callback of [files.map] in [generateDirectoryListing]. *)
Definition makeItem (fs : FS) (dirPath urlPath file : string) : M Item :=
  let filePath := Path.join dirPath file in
  stat ← Fs.statSync fs filePath;
  mret (itemOf urlPath file stat).

(** The child [file] of [dirPath] can be looked at. *)
Definition childOk (fs : FS) (dirPath file : string) : Prop :=
  Fs.hasNul (Path.join dirPath file) = false
  ∧ ∃ stat, sys_stat fs (Path.join dirPath file) = inr stat.

(** [item] is the entry of the child [file] of [dirPath]. *)
Definition entryOf (fs : FS) (dirPath urlPath file : string) (item : Item)
  : Prop :=
  ∃ stat, sys_stat fs (Path.join dirPath file) = inr stat
          ∧ item = itemOf urlPath file stat.

(** The comparison handed to [items.sort]: directories first, then by
    name. *)
Definition compareItems (a b : Item) : Z :=
  if isDir a && negb (isDir b) then -1
  else if negb (isDir a) && isDir b then 1
  else localeCompare (name a) (name b).

(** The [parent] string: empty for the request path [/]. *)
Definition parentOf (urlPath : string) : string :=
  if bool_decide (urlPath ≠ "/") then Html.parentRow (Path.dirname urlPath)
  else "".

Definition renderItem (item : Item) : string :=
  Html.row (href item) (isDir item) (name item) (sizeText item)
           (toLocaleString (modified item)).

(** [items.map(item => ...).join('')] *)
Definition renderRows (items : list Item) : string :=
  Str.join "" (renderItem <$> items).

(** The sorted items of a listing. *)
Definition listingItems (fs : FS) (dirPath urlPath : string) : M (list Item) :=
  files ← Fs.readdirSync fs dirPath;
  items ← mapM (makeItem fs dirPath urlPath) files;
  mret (sort compareItems items).

Definition generateDirectoryListing (fs : FS) (dirPath urlPath : string)
  : M string :=
  items ← listingItems fs dirPath urlPath;
  let parent := parentOf urlPath in
  let rows := renderRows items in
  mret (Html.page dirPath urlPath parent rows).

Definition forbidden : response :=
  {| status := 403; contentType := "text/plain"; body := "403 Forbidden" |}.
Definition notFound : response :=
  {| status := 404; contentType := "text/plain"; body := "404 Not Found" |}.
Definition serverError : response :=
  {| status := 500; contentType := "text/plain";
     body := "500 Internal Server Error" |}.
Definition ok (type data : string) : response :=
  {| status := 200; contentType := type; body := data |}.

(** [req.url.split('?')[0]] *)
Definition beforeQuery (url : string) : string :=
  default "" (head (Str.split "?"%char url)).

(** What the handler does once the request path is decoded. *)
Definition respond (fs : FS) (rootDir method urlPath : string) : M response :=
  if Str.includes ".." urlPath then mret forbidden
  else
    let filePath := Path.join rootDir urlPath in
    emit (EvLog method urlPath);;
    r ← Fs.stat fs filePath;
    match r with
    | inl _ => mret notFound
    | inr stats =>
        if isDirectory stats then
          let indexPath := Path.join filePath "index.html" in
          found ← Fs.existsSync fs indexPath;
          if found : bool then
            d ← Fs.readFile fs indexPath;
            match d with
            | inl _ => mret serverError
            | inr data => mret (ok "text/html" data)
            end
          else
            html ← generateDirectoryListing fs filePath urlPath;
            mret (ok "text/html" html)
        else
          let mimeType := mimeTypeOf filePath in
          d ← Fs.readFile fs filePath;
          match d with
          | inl _ => mret serverError
          | inr data => mret (ok mimeType data)
          end
    end.

(** The request listener of [createServer(rootDir, port)], for a request
    with method [method] and target [url].  The callbacks of [fs.stat] and
    [fs.readFile] are run in place: one request is followed to its end. *)
Definition handler (fs : FS) (rootDir method url : string) : M response :=
  match URI.decodeURIComponent (beforeQuery url) with
  | None => throw URIError
  | Some urlPath => respond fs rootDir method urlPath
  end.

End Server.

(** ** A small site, for examples *)

Module Sample.

(** A directory tree; [Denied] is an entry the process may not look at. *)
#[warnings="-register-all"]
Inductive node :=
  | File (content : string)
  | Dir (entries : list (string * node))
  | Denied.

Fixpoint child (entries : list (string * node)) (seg : string) : option node :=
  match entries with
  | [] => None
  | (n, x) :: entries' => if decide (n = seg) then Some x else child entries' seg
  end.

Fixpoint walk (segs : list string) (n : node) : errno + node :=
  match segs with
  | [] => inr n
  | seg :: segs' =>
      match n with
      | Dir entries =>
          match child entries seg with
          | Some n' => walk segs' n'
          | None => inl ENOENT
          end
      | File _ => inl ENOTDIR
      | Denied => inl EACCES
      end
  end.

Definition resolve (tree : node) (path : string) : errno + node :=
  match walk (Path.normalizeSegments false (Str.split Str.slash path)) tree with
  | inr (File c) =>
      if Str.endsWith Str.slash path then inl ENOTDIR else inr (File c)
  | inr Denied => inl EACCES
  | r => r
  end.

Definition treeFS (tree : node) : FS := {|
  sys_stat path :=
    match resolve tree path with
    | inl code => inl code
    | inr (File c) =>
        inr {| isDirectory := false; size := N.of_nat (String.length c);
               mtime := 0 |}
    | inr _ => inr {| isDirectory := true; size := 4096; mtime := 0 |}
    end;
  sys_readFile path :=
    match resolve tree path with
    | inl code => inl code
    | inr (File c) => inr c
    | inr _ => inl EISDIR
    end;
  sys_readdir path :=
    match resolve tree path with
    | inl code => inl code
    | inr (Dir entries) => inr (entries.*1)
    | inr _ => inl ENOTDIR
    end
|}.

(** The tree served from [/srv/www]. *)
Definition site : node :=
  Dir [("srv", Dir [("www", Dir [
    ("banana.txt", File "yellow");
    ("Apple", Dir []);
    ("photo.JPG", File "JFIF");
    ("notes..txt", File "to do");
    ("docs", Dir [("index.html", File "<h1>docs</h1>");
                  ("guide.md", File "# Guide")]);
    ("cherry.bin", File "0123");
    ("locked", Dir [("secret", Denied)]);
    ("broken", Dir [("index.html", Dir [])])
  ])]);
  ("etc", Dir [("passwd", File "root:x:0:0")])].

(** Every entry below [n] has a proper name. *)
Fixpoint wellNamed (n : node) : bool :=
  match n with
  | Dir entries =>
      forallb (λ '(file, n'), entryName file && wellNamed n') entries
  | _ => true
  end.

Definition fs : FS := treeFS site.
Definition rootDir : string := "/srv/www".

Definition formatBytes (n : N) : string := "? B".
Definition toLocaleString (t : Z) : string := "1/1/1970, 12:00:00 AM".

(** A collation that ignores the case of ASCII letters. *)
Definition localeCompare (a b : string) : Z :=
  match String.compare (Str.toLowerCase a) (Str.toLowerCase b) with
  | Lt => -1
  | Eq => 0
  | Gt => 1
  end.

Definition handle : string → string → M response :=
  handler formatBytes toLocaleString localeCompare fs rootDir.

End Sample.

(** ** Numbers and whitespace, for the command lines *)

Module Num.

(** A JavaScript number as far as the command lines go: the value of
    [parseInt] is [NaN], an integer that is a double, or an infinity.
    The two zeros are one [Int 0]: both are falsy, neither is [NaN], and
    both print as [0]. *)
Inductive number := NaN | Int (z : Z) | Infinity (negative : bool).

Global Instance number_eq_dec : EqDecision number.
Proof. solve_decision. Defined.

(** The double nearest to the natural number [n], ties to even. *)
Definition nearest (n : Z) : number :=
  let e := Z.log2 n in
  if e <? 53 then Int n
  else
    let shift := e - 52 in
    let q := Z.shiftr n shift in
    let r := Z.land n (Z.ones shift) in
    let half := Z.shiftl 1 (shift - 1) in
    let q' := if (half <? r) || ((r =? half) && Z.odd q) then q + 1 else q in
    let v := Z.shiftl q' shift in
    if Z.shiftl 1 1024 <=? v then Infinity false else Int v.

(** The Number value for the integer [z]. *)
Definition ofZ (z : Z) : number :=
  if z <? 0 then
    match nearest (- z) with
    | Int v => Int (- v)
    | Infinity _ => Infinity true
    | NaN => NaN
    end
  else nearest z.

Definition isNaN (x : number) : bool :=
  match x with NaN => true | _ => false end.

(** [x || d] *)
Definition orElse (x d : number) : number :=
  match x with
  | NaN | Int 0 => d
  | _ => x
  end.

Definition byte (c : ascii) : N := N_of_ascii c.

(** The white space and line terminators of ECMAScript that are one byte
    in UTF-8: TAB, LF, VT, FF, CR and the space. *)
Definition isSpace1 (c : ascii) : bool :=
  let n := byte c in
  ((9 <=? n) && (n <=? 13))%N || (n =? 32)%N.

(** The one that is two bytes: U+00A0. *)
Definition isSpace2 (c1 c2 : ascii) : bool :=
  ((byte c1 =? 194) && (byte c2 =? 160))%N.

(** Those that are three bytes: U+1680, U+2000 to U+200A, U+2028, U+2029,
    U+202F, U+205F, U+3000 and U+FEFF. *)
Definition isSpace3 (c1 c2 c3 : ascii) : bool :=
  let '(a, b, c) := (byte c1, byte c2, byte c3) in
  ((a =? 225) && (b =? 154) && (c =? 128))%N
  || ((a =? 226) && (b =? 128)
      && (((128 <=? c) && (c <=? 138)) || (c =? 168) || (c =? 169)
          || (c =? 175)))%N
  || ((a =? 226) && (b =? 129) && (c =? 159))%N
  || ((a =? 227) && (b =? 128) && (c =? 128))%N
  || ((a =? 239) && (b =? 187) && (c =? 191))%N.

(** [s] starts with a character of white space. *)
Definition startsWithSpace (s : string) : bool :=
  match s with
  | "" => false
  | String c1 s1 =>
      isSpace1 c1
      || match s1 with
         | "" => false
         | String c2 s2 =>
             isSpace2 c1 c2
             || match s2 with
                | "" => false
                | String c3 _ => isSpace3 c1 c2 c3
                end
         end
  end.

(** [s.trimStart()] *)
Fixpoint trimStart (s : string) : string :=
  match s with
  | "" => ""
  | String c1 s1 =>
      if isSpace1 c1 then trimStart s1
      else
        match s1 with
        | "" => s
        | String c2 s2 =>
            if isSpace2 c1 c2 then trimStart s2
            else
              match s2 with
              | "" => s
              | String c3 s3 =>
                  if isSpace3 c1 c2 c3 then trimStart s3 else s
              end
        end
  end.

(** [s.trimEnd()]: what is left of [s] once it is all white space is
    dropped. *)
Fixpoint trimEnd (s : string) : string :=
  match s with
  | "" => ""
  | String c s' =>
      if bool_decide (trimStart s = "") then "" else String c (trimEnd s')
  end.

(** [s.trim()] *)
Definition trim (s : string) : string := trimEnd (trimStart s).

Definition digit (c : ascii) : option Z :=
  let n := byte c in
  if ((48 <=? n) && (n <=? 57))%N then Some (Z.of_N n - 48) else None.

(** The digits at the start of [s]: how many there are and their value
    after the digits of value [acc]. *)
Fixpoint digits (s : string) (count : nat) (acc : Z) : nat * Z :=
  match s with
  | "" => (count, acc)
  | String c s' =>
      match digit c with
      | Some d => digits s' (S count) (10 * acc + d)
      | None => (count, acc)
      end
  end.

(** [parseInt(s, 10)] *)
Definition parseInt (s : string) : number :=
  let S := trimStart s in
  let '(negative, Z) :=
    match S with
    | String "-" rest => (true, rest)
    | String "+" rest => (false, rest)
    | _ => (false, S)
    end in
  match digits Z 0 0 with
  | (O, _) => NaN
  | (_, mathInt) => ofZ (if negative : bool then - mathInt else mathInt)
  end.

End Num.

(** ** The command line of serve-here *)

Module Colors.
Definition esc (code : string) : string := String (ascii_of_nat 27) code.
Definition green : string := esc "[32m".
Definition red : string := esc "[31m".
Definition yellow : string := esc "[33m".
Definition blue : string := esc "[34m".
Definition cyan : string := esc "[36m".
Definition reset : string := esc "[0m".
Definition dim : string := esc "[2m".
Definition bold : string := esc "[1m".
End Colors.

Module ServeHere.
Import Num.

(** [path.resolve(arg)] in the working directory [cwd]: the argument, put
    after the working directory unless it is absolute, with [.] and [..]
    resolved and no slash at its end. *)
Definition resolve (cwd arg : string) : string :=
  let '(resolvedPath, resolvedAbsolute) :=
    if bool_decide (arg = "") then ("", false)
    else (arg +:+ "/" +:+ "", Str.startsWith Str.slash arg) in
  let '(resolvedPath, resolvedAbsolute) :=
    if resolvedAbsolute then (resolvedPath, true)
    else if bool_decide (cwd = "") then (resolvedPath, false)
    else (cwd +:+ "/" +:+ resolvedPath, Str.startsWith Str.slash cwd) in
  let body :=
    Str.join "/" (Path.normalizeSegments (negb resolvedAbsolute)
                    (Str.split Str.slash resolvedPath)) in
  if resolvedAbsolute then "/" +:+ body
  else if bool_decide (body = "") then "." else body.

Record options := { port : number; dir : string; open : bool; help : bool }.

Definition isHelp (arg : string) : bool :=
  bool_decide (arg = "-h") || bool_decide (arg = "--help").
Definition isPort (arg : string) : bool :=
  bool_decide (arg = "-p") || bool_decide (arg = "--port").
Definition isDirFlag (arg : string) : bool :=
  bool_decide (arg = "-d") || bool_decide (arg = "--dir").
Definition isOpen (arg : string) : bool :=
  bool_decide (arg = "-o") || bool_decide (arg = "--open").

(** The loop of [parseArgs] over the arguments that are left.  [-p] and
    [-d] take the argument after them, whatever it is; past the end that
    argument is [undefined], which [parseInt] reads as [NaN] and
    [path.resolve] refuses with a [TypeError] ([None]). *)
Fixpoint parseLoop (cwd : string) (args : list string) (o : options)
  : option options :=
  match args with
  | [] => Some o
  | arg :: rest =>
      if isHelp arg then
        parseLoop cwd rest
          {| port := port o; dir := dir o; open := open o; help := true |}
      else if isPort arg then
        match rest with
        | value :: rest' =>
            parseLoop cwd rest'
              {| port := orElse (parseInt value) (Int 3000); dir := dir o;
                 open := open o; help := help o |}
        | [] =>
            Some {| port := orElse (parseInt "undefined") (Int 3000);
                    dir := dir o; open := open o; help := help o |}
        end
      else if isDirFlag arg then
        match rest with
        | value :: rest' =>
            parseLoop cwd rest'
              {| port := port o; dir := resolve cwd value; open := open o;
                 help := help o |}
        | [] => None
        end
      else if isOpen arg then
        parseLoop cwd rest
          {| port := port o; dir := dir o; open := true; help := help o |}
      else if negb (Str.startsWith "-" arg) then
        let portNum := parseInt arg in
        if negb (isNaN portNum) then
          parseLoop cwd rest
            {| port := portNum; dir := dir o; open := open o;
               help := help o |}
        else parseLoop cwd rest o
      else parseLoop cwd rest o
  end.

(** [parseArgs()], for the working directory [cwd] and the arguments
    [process.argv.slice(2)]. *)
Definition parseArgs (cwd : string) (args : list string) : option options :=
  parseLoop cwd args
    {| port := Int 3000; dir := cwd; open := false; help := false |}.

(** One address of a network interface; [family] is the string ['IPv4']
    or ['IPv6'] ([FamilyName]), a number in some versions of Node
    ([FamilyNumber]). *)
Inductive family := FamilyName (name : string) | FamilyNumber (n : Z).
Record address := { addressFamily : family; internal : bool; ip : string }.

Definition external4 (net : address) : bool :=
  match addressFamily net with
  | FamilyName name => bool_decide (name = "IPv4") && negb (internal net)
  | FamilyNumber _ => false
  end.

(** The inner loop of [getLocalIP] over the addresses of one interface. *)
Fixpoint firstExternal4 (nets : list address) : option string :=
  match nets with
  | [] => None
  | net :: nets' =>
      if external4 net then Some (ip net) else firstExternal4 nets'
  end.

(** The outer loop, over the interfaces in the order of [Object.keys]. *)
Fixpoint scanInterfaces (nets : list (string * list address)) : option string :=
  match nets with
  | [] => None
  | (_, addresses) :: nets' =>
      match firstExternal4 addresses with
      | Some found => Some found
      | None => scanInterfaces nets'
      end
  end.

(** [getLocalIP()], for the interfaces [os.networkInterfaces()] returns. *)
Definition getLocalIP (nets : list (string * list address)) : string :=
  default "localhost" (scanInterfaces nets).

(** The command [openBrowser(url)] hands to [exec]. *)
Definition openBrowser (platform url : string) : string :=
  let command :=
    if bool_decide (platform = "darwin") then "open"
    else if bool_decide (platform = "win32") then "start" else "xdg-open" in
  command +:+ " " +:+ url.

(** The text [showHelp()] prints. *)
Definition helpText : string :=
  "
" +:+ Colors.blue +:+ Colors.bold +:+ "serve-here" +:+ Colors.reset +:+ " - Local static file server

" +:+ Colors.yellow +:+ "Usage:" +:+ Colors.reset +:+ "
  serve-here [port] [options]
  
" +:+ Colors.yellow +:+ "Options:" +:+ Colors.reset +:+ "
  -p, --port <port>   Port number (default: 3000)
  -d, --dir <path>    Directory to serve (default: current)
  -o, --open          Open browser automatically
  -h, --help          Show this help message
  
" +:+ Colors.yellow +:+ "Examples:" +:+ Colors.reset +:+ "
  serve-here                    # Serve current dir on port 3000
  serve-here 8080               # Serve on port 8080
  serve-here -p 5000 -o         # Port 5000 and open browser
  serve-here -d ./dist          # Serve ./dist directory
".

Inductive output := Log (text : string) | Error (text : string).

(** Where [main()] gets to: [parseArgs] threw, the help was printed, the
    process was ended with an exit code, or the server was created for a
    root and asked to listen on a port. *)
Inductive startup :=
  | Thrown
  | Helped (out : list output)
  | Exited (out : list output) (code : Z)
  | Listening (rootDir : string) (listenPort : number).

(** [main()] up to [server.listen]. *)
Definition main (fs : FS) (cwd : string) (args : list string)
  : list event * startup :=
  match parseArgs cwd args with
  | None => ([], Thrown)
  | Some options =>
      if help options then ([], Helped [Log helpText])
      else
        let '(t, found) := Fs.existsSync fs (dir options) in
        match found with
        | inr true => (t, Listening (dir options) (port options))
        | _ =>
            (t, Exited [Error (Colors.red
                               +:+ "Error: Directory does not exist: "
                               +:+ dir options +:+ Colors.reset)] 1)
        end
  end.

Section Callbacks.
(** [Number.prototype.toString], which the messages use for the port, is
    left open. *)
Context (numberToString : number → string).

(** The callback of [server.listen]: the banner, and the command that
    opens the browser when that was asked for. *)
Definition listening (options : options) (platform : string)
    (nets : list (string * list address)) : list output * option string :=
  let localIP := getLocalIP nets in
  ([Log ("
" +:+ Colors.green +:+ Colors.bold +:+ "✓ Server running!" +:+ Colors.reset +:+ "

  " +:+ Colors.dim +:+ "Local:" +:+ Colors.reset +:+ "    " +:+ Colors.cyan +:+ "http://localhost:" +:+ numberToString (port options) +:+ Colors.reset +:+ "
  " +:+ Colors.dim +:+ "Network:" +:+ Colors.reset +:+ "  " +:+ Colors.cyan +:+ "http://" +:+ localIP +:+ ":" +:+ numberToString (port options) +:+ Colors.reset +:+ "

  " +:+ Colors.dim +:+ "Serving:" +:+ Colors.reset +:+ "  " +:+ dir options +:+ "

" +:+ Colors.yellow +:+ "Press Ctrl+C to stop" +:+ Colors.reset +:+ "
")],
   if open options
   then Some (openBrowser platform
                ("http://localhost:" +:+ numberToString (port options)))
   else None).

(** The handler of the server's [error] event, for an error with the code
    [code] and the message [message]: what it prints and the exit code. *)
Definition serverError (options : options) (code message : string)
  : list output * Z :=
  (if bool_decide (code = "EADDRINUSE") then
     [Error (Colors.red +:+ "Error: Port " +:+ numberToString (port options)
             +:+ " is already in use" +:+ Colors.reset);
      Log (Colors.dim +:+ "Try a different port with: serve-here -p <port>"
           +:+ Colors.reset)]
   else
     [Error (Colors.red +:+ "Server error: " +:+ message +:+ Colors.reset)],
   1).

End Callbacks.

End ServeHere.

(** ** ping-hosts *)

Module PingHosts.
Import Num.

Definition DEFAULT_HOSTS : list string :=
  ["google.com"; "github.com"; "cloudflare.com"].

(** [s.length]: the UTF-16 code units of the string, one for each
    character and two for a character of four bytes. *)
Fixpoint jsLength (s : string) : nat :=
  match s with
  | "" => O
  | String c s' =>
      let n := byte c in
      ((if ((128 <=? n) && (n <? 192))%N then 0 else 1)
       + (if (240 <=? n)%N then 1 else 0)
       + jsLength s')%nat
  end.

Fixpoint spaces (n : nat) : string :=
  match n with O => "" | S n' => String " " (spaces n') end.

(** [s.padEnd(n)] *)
Definition padEnd (n : nat) (s : string) : string :=
  s +:+ spaces (n - jsLength s).

(** [s.repeat(n)] *)
Fixpoint repeat (s : string) (n : nat) : string :=
  match n with O => "" | S n' => s +:+ repeat s n' end.

Definition newline : ascii := ascii_of_nat 10.

(** The lines of a hosts file that name a host:
    [content.split("\n").map(trim).filter(line => line && !line.startsWith("#"))]. *)
Definition parseHosts (content : string) : list string :=
  filter (λ line, line ≠ "" ∧ Str.startsWith "#" line = false)
         (trim <$> Str.split newline content).

(** *** The response time in the output of ping *)

(** [c] is the letter [lower], in either case. *)
Definition letter (lower c : ascii) : bool :=
  bool_decide (c = lower) || bool_decide (Str.lowerChar c = lower).

(** [s] is made of digits. *)
Fixpoint allDigits (s : string) : bool :=
  match s with
  | "" => true
  | String c s' => bool_decide (is_Some (digit c)) && allDigits s'
  end.

(** The digits at the start of [s], and what follows them. *)
Fixpoint spanDigits (s : string) : string * string :=
  match s with
  | "" => ("", "")
  | String c s' =>
      match digit c with
      | Some _ => let '(ds, rest) := spanDigits s' in (String c ds, rest)
      | None => ("", s)
      end
  end.

(** The end of the pattern: [\s*ms], without regard to case. *)
Definition matchUnit (s : string) : bool :=
  match trimStart s with
  | String m (String s' _) => letter "m" m && letter "s" s'
  | _ => false
  end.

(** The pattern of [pingHost] at the start of [s], without regard to
    case: [time], then [=] or [<], then the group (one or more digits, an
    optional dot, any digits), then any white space, then [ms].  The
    result is the text of the group.  Each part takes all it can: a
    shorter choice never lets the rest of the pattern match when the
    longest does not. *)
Definition matchTimeAt (s : string) : option string :=
  match s with
  | String t (String i (String m (String e (String sep rest)))) =>
      if letter "t" t && letter "i" i && letter "m" m && letter "e" e
         && (bool_decide (sep = "="%char) || bool_decide (sep = "<"%char))
      then
        let '(whole, rest1) := spanDigits rest in
        if bool_decide (whole = "") then None
        else
          let '(dot, rest2) :=
            match rest1 with
            | String "." rest2 => (".", rest2)
            | _ => ("", rest1)
            end in
          let '(fraction, rest3) := spanDigits rest2 in
          if matchUnit rest3 then Some (whole +:+ dot +:+ fraction) else None
      else None
  | _ => None
  end.

(** [stdout.match(...)]: the first place where the pattern matches. *)
Fixpoint matchTime (stdout : string) : option string :=
  match matchTimeAt stdout with
  | Some group => Some group
  | None =>
      match stdout with
      | "" => None
      | String _ rest => matchTime rest
      end
  end.

(** The command [pingHost] runs. *)
Definition pingCommand (platform host : string) : string :=
  if bool_decide (platform = "win32")
  then "ping -n 1 -w 1000 " +:+ host
  else "ping -c 1 -W 1 " +:+ host.

Inductive effect :=
  | Print (text : string)
  | PrintError (text : string)
  | ReadFile (path : string)
  | Exec (command : string) (outcome : option string)
  | Exit (code : Z).

(** The text of the help. *)
Definition helpText : string :=
  "
" +:+ Colors.blue +:+ "ping-hosts" +:+ Colors.reset +:+ " - Check availability of multiple hosts

" +:+ Colors.yellow +:+ "Usage:" +:+ Colors.reset +:+ "
  ping-hosts [hosts...]
  ping-hosts -f <file>
  
" +:+ Colors.yellow +:+ "Options:" +:+ Colors.reset +:+ "
  -h, --help          Show this help message
  -f, --file <file>   Read hosts from file (one per line)
  
" +:+ Colors.yellow +:+ "Examples:" +:+ Colors.reset +:+ "
  ping-hosts google.com github.com
  ping-hosts -f hosts.txt
  ping-hosts 8.8.8.8 1.1.1.1 cloudflare.com
".

Definition isFileFlag (arg : string) : bool :=
  bool_decide (arg = "-f") || bool_decide (arg = "--file").

(** [args.findIndex(arg => arg === "-f" || arg === "--file")], for
    arguments that hold one of the two. *)
Fixpoint findIndex (args : list string) : nat :=
  match args with
  | [] => O
  | arg :: rest => if isFileFlag arg then O else S (findIndex rest)
  end.

Section Ping.
(** The process and the numbers of JavaScript are left open: [exec i] is
    what running a command gives when it is the command number [i] that
    the process starts, its output or the failure of the command;
    [readFile] is what reading a file as text gives, the message
    of the error or the content; [parseFloat], the comparison [time < n]
    and the text of a number stand for the doubles of the response
    times. *)
Context (platform : string).
Context (exec : nat → string → option string).
Context (readFile : string → string + string).
Context {number : Type}.
Context (parseFloat : string → number).
Context (below : number → Z → bool).
Context (numberToString : number → string).

Record result := { host : string; success : bool; time : option number }.

(** [pingHost(host)] once the command has ended, for the call number
    [i]. *)
Definition pingHost (i : nat) (h : string) : result :=
  match exec i (pingCommand platform h) with
  | Some stdout =>
      {| host := h; success := true;
         time := parseFloat <$> matchTime stdout |}
  | None => {| host := h; success := false; time := None |}
  end.

(** [time < n], where [null] counts as 0. *)
Definition timeBelow (t : option number) (n : Z) : bool :=
  match t with
  | Some x => below x n
  | None => 0 <? n
  end.

Definition formatResult (r : result) : string :=
  if success r then
    let timeStr :=
      match time r with
      | Some x => numberToString x +:+ "ms"
      | None => "OK"
      end in
    let color :=
      if timeBelow (time r) 50 then Colors.green
      else if timeBelow (time r) 150 then Colors.yellow else Colors.blue in
    Colors.green +:+ "✓" +:+ Colors.reset +:+ " " +:+ padEnd 30 (host r)
    +:+ " " +:+ color +:+ timeStr +:+ Colors.reset
  else
    Colors.red +:+ "✗" +:+ Colors.reset +:+ " " +:+ padEnd 30 (host r)
    +:+ " " +:+ Colors.red +:+ "UNREACHABLE" +:+ Colors.reset.

(** The hosts to check, with what finding them did; or, when there is no
    hosts file to read, what was done up to the exit. *)
Definition selectHosts (args : list string)
  : list effect + list effect * list string :=
  if bool_decide ("-f" ∈ args) || bool_decide ("--file" ∈ args) then
    let fileIndex := findIndex args in
    match args !! (fileIndex + 1)%nat with
    | None | Some "" =>
        inl [PrintError (Colors.red +:+ "Error: No file specified"
                         +:+ Colors.reset);
             Exit 1]
    | Some filePath =>
        match readFile filePath with
        | inr content => inr ([ReadFile filePath], parseHosts content)
        | inl message =>
            inl [ReadFile filePath;
                 PrintError (Colors.red +:+ "Error reading file: "
                             +:+ message +:+ Colors.reset);
                 Exit 1]
        end
    end
  else if bool_decide (args ≠ []) then inr ([], args)
  else
    inr ([Print (Colors.dim +:+ "No hosts specified, checking defaults..."
                 +:+ Colors.reset +:+ "
")],
         DEFAULT_HOSTS).

(** The check of the hosts: the commands are started in the order of the
    hosts, and the results are printed in that order once all of them
    have ended. *)
Definition checkHosts (hosts : list string) : list effect :=
  if bool_decide (hosts = []) then
    [PrintError (Colors.red +:+ "Error: No hosts to check" +:+ Colors.reset);
     Exit 1]
  else
    let results := imap pingHost hosts in
    let available := length (filter (λ r, success r = true) results) in
    let unavailable := (length results - available)%nat in
    [Print (Colors.blue +:+ "Checking " +:+ pretty (length hosts)
            +:+ " host(s)..." +:+ Colors.reset +:+ "
")]
    ++ imap (λ i h, Exec (pingCommand platform h)
                         (exec i (pingCommand platform h))) hosts
    ++ (Print ∘ formatResult <$> results)
    ++ [Print ("
" +:+ Colors.dim +:+ repeat "─" 50 +:+ Colors.reset);
        Print (Colors.green +:+ "Available: " +:+ pretty available
               +:+ Colors.reset +:+ " | " +:+ Colors.red +:+ "Unreachable: "
               +:+ pretty unavailable +:+ Colors.reset);
        Exit (if bool_decide (0 < unavailable)%nat then 1 else 0)].

(** [main()], for the arguments [process.argv.slice(2)]: what it does, in
    order.  Without an [Exit] the process ends by itself, with code 0. *)
Definition main (args : list string) : list effect :=
  if bool_decide ("-h" ∈ args) || bool_decide ("--help" ∈ args)
  then [Print helpText]
  else
    match selectHosts args with
    | inl stopped => stopped
    | inr (found, hosts) => found ++ checkHosts hosts
    end.

End Ping.

End PingHosts.

(** ** Sample runs of the two commands *)

Module SampleRuns.
Import Num ServeHere.

Definition cwd : string := "/home/user".

(** The text of a port: the decimal digits of an integer, as JavaScript
    prints the integers below 1e21. *)
Definition numberToString (x : number) : string :=
  match x with
  | NaN => "NaN"
  | Int z => pretty z
  | Infinity false => "Infinity"
  | Infinity true => "-Infinity"
  end.

(** The interfaces of a machine: the loopback, then a card with an IPv6
    and an IPv4 address. *)
Definition nets : list (string * list address) :=
  [("lo", [{| addressFamily := FamilyName "IPv4"; internal := true;
              ip := "127.0.0.1" |}]);
   ("eth0", [{| addressFamily := FamilyName "IPv6"; internal := false;
                ip := "fe80::1" |};
             {| addressFamily := FamilyName "IPv4"; internal := false;
                ip := "192.168.1.20" |}])].

Definition cr : string := String (ascii_of_nat 13) "".
Definition nl : string := String PingHosts.newline "".

(** A hosts file with a CRLF line end, a comment, an empty line and a
    host with spaces around it. *)
Definition hostsFile : string :=
  "google.com" +:+ cr +:+ nl +:+ "# DNS" +:+ nl +:+ nl +:+ "  8.8.8.8 " +:+ nl.

Definition platform : string := "linux".

(** A network where 8.8.8.8 and google.com answer and nothing else
    does. *)
Definition exec (i : nat) (command : string) : option string :=
  if bool_decide (command = "ping -c 1 -W 1 8.8.8.8")
  then Some "64 bytes from 8.8.8.8: icmp_seq=1 ttl=117 time=12.3 ms"
  else if bool_decide (command = "ping -c 1 -W 1 google.com")
  then Some "64 bytes from 142.250.1.1: icmp_seq=1 ttl=110 time=101 ms"
  else None.

Definition readFile (path : string) : string + string :=
  if bool_decide (path = "hosts.txt") then inr hostsFile
  else inl "ENOENT: no such file or directory".

(** Response times kept as their text; the comparison looks at the
    digits before the dot, which decide it for a bound that is an
    integer. *)
Definition parseFloat (text : string) : string := text.
Definition below (time : string) (bound : Z) : bool :=
  (digits time 0 0).2 <? bound.

Definition run : list string → list PingHosts.effect :=
  PingHosts.main platform exec readFile parseFloat below parseFloat.

End SampleRuns.

(** ** free-memory *)

Module FreeMemory.

(** The steps of [main].  What [display_memory], [clear_cache] and
    [clear_swap] do is left to the system they ask: they are steps
    here. *)
Inductive step :=
  | ShowHelp
  | Echo (text : string)
  | DisplayMemory
  | ClearCache
  | ClearSwap.

(** A run of [main]: it leaves the script with [exit], it stays in the
    loop of the watch mode, which has no end, or it comes to its end. *)
Inductive run :=
  | Exits (steps : list step) (code : Z)
  | Watches
  | Returns (steps : list step).

Definition newline : ascii := ascii_of_nat 10.

Record flags := { do_cache : bool; do_swap : bool; do_watch : bool }.

Definition isHelp (arg : string) : bool :=
  bool_decide (arg = "-h") || bool_decide (arg = "--help").
Definition isClear (arg : string) : bool :=
  bool_decide (arg = "-c") || bool_decide (arg = "--clear").
Definition isSwap (arg : string) : bool :=
  bool_decide (arg = "-s") || bool_decide (arg = "--swap").
Definition isAll (arg : string) : bool :=
  bool_decide (arg = "-a") || bool_decide (arg = "--all").
Definition isWatch (arg : string) : bool :=
  bool_decide (arg = "-w") || bool_decide (arg = "--watch").

(** The loop over the arguments: the [case] on [$1], with [shift]. *)
Fixpoint options (args : list string) (f : flags) : run + flags :=
  match args with
  | [] => inr f
  | arg :: rest =>
      if isHelp arg then inl (Exits [ShowHelp] 0)
      else if isClear arg then
        options rest {| do_cache := true; do_swap := do_swap f;
                        do_watch := do_watch f |}
      else if isSwap arg then
        options rest {| do_cache := do_cache f; do_swap := true;
                        do_watch := do_watch f |}
      else if isAll arg then
        options rest {| do_cache := true; do_swap := true;
                        do_watch := do_watch f |}
      else if isWatch arg then
        options rest {| do_cache := do_cache f; do_swap := do_swap f;
                        do_watch := true |}
      else inl (Exits [Echo ("Unknown option: " +:+ arg)] 1)
  end.

(** [main "$@"] *)
Definition main (args : list string) : run :=
  match options args {| do_cache := false; do_swap := false;
                        do_watch := false |} with
  | inl stopped => stopped
  | inr f =>
      if do_watch f then Watches
      else
        Returns
          ([DisplayMemory]
           ++ (if do_cache f then [Echo ""; ClearCache] else [])
           ++ (if do_swap f then [Echo ""; ClearSwap] else [])
           ++ (if do_cache f || do_swap f
               then [Echo (String newline (Colors.bold +:+ "Updated State:"
                                           +:+ Colors.reset));
                     DisplayMemory]
               else []))
  end.

End FreeMemory.

(** ** Facts about strings and paths *)

Section StringFacts.
Import Str.

Example decodeURIComponent_examples :
  URI.decodeURIComponent "/a%20b/%2e%2E/c" = Some "/a b/../c"
  ∧ URI.decodeURIComponent "/caf%C3%A9" = Some "/café"
  ∧ URI.decodeURIComponent "/%" = None
  ∧ URI.decodeURIComponent "/%4" = None
  ∧ URI.decodeURIComponent "/%zz" = None
  ∧ URI.decodeURIComponent "/%C3" = None
  ∧ URI.decodeURIComponent "/%C3x" = None
  ∧ URI.decodeURIComponent "/%C0%AE" = None
  ∧ URI.decodeURIComponent "/%ED%A0%80" = None
  ∧ URI.decodeURIComponent "/%FF" = None.
Proof. by split_and!. Qed.

Example beforeQuery_examples :
  beforeQuery "/a/b?x=1?y" = "/a/b"
  ∧ beforeQuery "/a/b" = "/a/b"
  ∧ beforeQuery "?x" = "".
Proof. by split_and!. Qed.

Lemma split_nonempty sep s : split sep s ≠ [].
Proof.
  destruct s as [|c s]; simpl; [done|].
  case_decide; [done|]. by destruct (split sep s).
Qed.

(** The first piece of a split starts like the string itself. *)
Lemma split_head_cons sep s a w ws :
  split sep s = String a w :: ws → ∃ s', s = String a s'.
Proof.
  destruct s as [|c s]; simpl; [done|].
  case_decide; [done|].
  destruct (split sep s); intros [= -> _]; eauto.
Qed.

Lemma includes_tail needle c s :
  includes needle (String c s) = false → includes needle s = false.
Proof. simpl. by intros [_ ?]%orb_false_iff. Qed.

Lemma isPrefix_cons a pre b s :
  isPrefix (String a pre) (String b s) = bool_decide (a = b) && isPrefix pre s.
Proof. done. Qed.

Lemma includes_cons needle c s :
  includes needle (String c s)
  = isPrefix needle (String c s) || includes needle s.
Proof. done. Qed.

Lemma isPrefix_split_head sep a s w ws :
  split sep s = w :: ws →
  isPrefix (String a "") w = true → isPrefix (String a "") s = true.
Proof.
  intros Hsplit. destruct w as [|b w]; [done|].
  apply split_head_cons in Hsplit as [s' ->].
  by rewrite !isPrefix_cons.
Qed.

(** A string without [..] has no piece with [..]. *)
Lemma includes_dotdot_split s :
  includes ".." s = false →
  Forall (λ w, includes ".." w = false) (split slash s).
Proof.
  induction s as [|c s IH]; intros Hs.
  - by repeat constructor.
  - pose proof (includes_tail _ _ _ Hs) as Hs'.
    specialize (IH Hs'). simpl.
    case_decide as Hc; [by constructor|].
    destruct (split slash s) as [|w ws] eqn:Hsplit;
      [by apply split_nonempty in Hsplit|].
    inversion IH as [|? ? Hw Hws]; subst.
    constructor; [|done].
    rewrite includes_cons, Hw, orb_false_r.
    rewrite includes_cons in Hs. apply orb_false_iff in Hs as [Hpre _].
    rewrite isPrefix_cons in Hpre |- *.
    destruct (bool_decide ("."%char = c)); [|done].
    rewrite andb_true_l in Hpre |- *.
    destruct (isPrefix "." w) eqn:Hpw; [|done].
    apply (isPrefix_split_head _ _ _ _ _ Hsplit) in Hpw. congruence.
Qed.

(** A path with a segment that contains [..] contains [..]. *)
Lemma segment_includes_dotdot s seg :
  seg ∈ split slash s → includes ".." seg = true → includes ".." s = true.
Proof.
  intros Hin Hseg.
  destruct (includes ".." s) eqn:Hs; [done|].
  apply includes_dotdot_split in Hs.
  rewrite Forall_forall in Hs. apply Hs in Hin. congruence.
Qed.

End StringFacts.

(** ** Facts about [path.normalize] and [path.join] *)

Section PathFacts.
Import Str Path.

(** The functions of Node on the examples of its documentation. *)
Example normalize_examples :
  normalize "/foo/bar//baz/asdf/quux/.." = "/foo/bar/baz/asdf"
  ∧ normalize "/a/./b/../../c/" = "/c/"
  ∧ normalize "/../.." = "/"
  ∧ normalize "a/../../b" = "../b"
  ∧ normalize "" = ".".
Proof. by split_and!. Qed.

Example join_examples :
  Path.join "/srv/www" "/a/b.txt" = "/srv/www/a/b.txt"
  ∧ Path.join "/srv/www" "/" = "/srv/www/"
  ∧ Path.join "/srv/www" "" = "/srv/www"
  ∧ Path.join "/srv/www" "/a/.%2e/b" = "/srv/www/a/.%2e/b"
  ∧ Path.join "/srv/www" "/a/.../b" = "/srv/www/a/.../b"
  ∧ Path.join "/" "/x" = "/x".
Proof. by split_and!. Qed.

Example dirname_examples :
  dirname "/foo/bar/baz/asdf/quux" = "/foo/bar/baz/asdf"
  ∧ dirname "/docs/" = "/"
  ∧ dirname "/docs" = "/"
  ∧ dirname "/" = "/"
  ∧ dirname "//" = "/"
  ∧ dirname "" = ".".
Proof. by split_and!. Qed.

Example extname_examples :
  extname "index.html" = ".html"
  ∧ extname "index.coffee.md" = ".md"
  ∧ extname "index." = "."
  ∧ extname "index" = ""
  ∧ extname ".index" = ""
  ∧ extname ".index.md" = ".md"
  ∧ extname "/srv/www.d/photo.JPG" = ".JPG"
  ∧ extname "/srv/www.d/photo" = "".
Proof. by split_and!. Qed.

Lemma split_app sep a b :
  split sep (a +:+ String sep b) = split sep a ++ split sep b.
Proof.
  induction a as [|c a IH]; simpl.
  - by rewrite decide_True.
  - case_decide; [by rewrite IH|].
    rewrite IH. destruct (split sep a) eqn:Ha; [|done].
    by apply split_nonempty in Ha.
Qed.

Lemma split_cons_sep sep s : split sep (String sep s) = "" :: split sep s.
Proof. simpl. by rewrite decide_True. Qed.

(** The pieces of a split hold no separator. *)
Lemma split_pieces sep s : Forall (λ w, split sep w = [w]) (split sep s).
Proof.
  induction s as [|c s IH]; simpl; [by repeat constructor|].
  case_decide as Hc; [by constructor|].
  destruct (split sep s) as [|w ws] eqn:Hs; [by apply split_nonempty in Hs|].
  apply Forall_cons in IH as [Hw Hws]. constructor; [|done].
  simpl. by rewrite decide_False, Hw.
Qed.

Lemma includes_slash_split w :
  includes "/" w = false → split slash w = [w].
Proof.
  induction w as [|c w IH]; [done|].
  rewrite includes_cons. intros [Hc Hw]%orb_false_iff.
  rewrite isPrefix_cons, andb_true_r in Hc.
  apply bool_decide_eq_false in Hc. simpl.
  rewrite decide_False by (intros ->; by apply Hc). by rewrite IH.
Qed.

Lemma split_join l :
  l ≠ [] → Forall (λ w, split slash w = [w]) l →
  split slash (Str.join "/" l) = l.
Proof.
  induction l as [|w l IH]; [done|]. intros _ [Hw Hl]%Forall_cons.
  destruct l as [|w' l]; [done|].
  change (Str.join "/" (w :: w' :: l))
    with (w +:+ String slash (Str.join "/" (w' :: l))).
  by rewrite split_app, Hw, IH.
Qed.

Lemma isName_nonempty seg : isName seg = true → seg ≠ "".
Proof. by intros H ->. Qed.

Lemma isName_not_dotdot seg : isName seg = true → seg ≠ "..".
Proof. by intros H ->. Qed.

Lemma step_name allow res seg :
  isName seg = true → step allow res seg = res ++ [seg].
Proof.
  unfold isName, step.
  by repeat (case_bool_decide; simplify_eq/=).
Qed.

Lemma step_skip allow res seg :
  seg = "" ∨ seg = "." → step allow res seg = res.
Proof. by intros [-> | ->]. Qed.

Lemma isName_cases seg :
  seg ≠ ".." → (seg = "" ∨ seg = ".") ∨ isName seg = true.
Proof.
  intros Hseg. unfold isName.
  destruct (decide (seg = "")) as [->|?]; [by left; left|].
  destruct (decide (seg = ".")) as [->|?]; [by left; right|].
  right. by rewrite !bool_decide_eq_false_2.
Qed.

(** Without [..] segments, normalization only drops the empty and the [.]
    segments. *)
Lemma foldl_step_names allow res segs :
  Forall (λ seg, seg ≠ "..") segs →
  foldl (step allow) res segs = res ++ filter (λ seg, isName seg = true) segs.
Proof.
  intros Hsegs. revert res.
  induction Hsegs as [|seg segs Hseg _ IH]; intros res; simpl.
  - by rewrite app_nil_r.
  - rewrite IH. destruct (isName_cases seg Hseg) as [Hskip|Hname].
    + rewrite step_skip, filter_cons_False; [done| |done].
      by destruct Hskip as [-> | ->].
    + rewrite step_name, filter_cons_True by done. by rewrite <- app_assoc.
Qed.

(** What is left of an absolute path by normalization are names. *)
Lemma foldl_step_isName res segs :
  Forall (λ seg, isName seg = true) res →
  Forall (λ seg, isName seg = true) (foldl (step false) res segs).
Proof.
  revert res. induction segs as [|seg segs IH]; intros res Hres; [done|].
  simpl. apply IH. unfold step.
  repeat case_bool_decide; simplify_eq/=; try done.
  - destruct (reverse res) as [|last before] eqn:Hrev; [done|].
    apply (f_equal reverse) in Hrev. rewrite reverse_involutive in Hrev.
    rewrite reverse_cons in Hrev. subst res.
    apply Forall_app in Hres as [Hbefore [Hlast _]%Forall_cons].
    case_bool_decide; [by subst|done].
  - apply Forall_app. split; [done|]. repeat constructor.
    unfold isName. by rewrite !bool_decide_eq_false_2.
Qed.

Lemma resolved_isName path : Forall (λ seg, isName seg = true) (resolved path).
Proof. by apply foldl_step_isName. Qed.

Lemma append_nil_r s : s +:+ "" = s.
Proof. induction s as [|c s IH]; [done|]. cbv [String.append]. fold String.append. by rewrite IH. Qed.

Lemma append_cons c a b : String c a +:+ b = String c (a +:+ b).
Proof. done. Qed.

Lemma filter_all {A} (P : A → Prop) `{∀ x, Decision (P x)} l :
  Forall P l → filter P l = l.
Proof.
  induction 1 as [|x l Hx _ IH]; [done|]. by rewrite filter_cons_True, IH.
Qed.

Lemma join_names_nonempty l :
  l ≠ [] → Forall (λ seg, isName seg = true) l → Str.join "/" l ≠ "".
Proof.
  destruct l as [|w l]; [done|]. intros _ [Hw _]%Forall_cons.
  apply isName_nonempty in Hw. destruct w as [|c w]; [done|].
  by destruct l.
Qed.

Lemma startsWith_absolute path :
  startsWith slash path = true → ∃ rest, path = String slash rest.
Proof.
  destruct path as [|c rest]; [done|]. simpl.
  intros ->%bool_decide_eq_true. eauto.
Qed.

(** Normalization builds its result from the segments it is given and
    from [..]. *)
Lemma foldl_step_Forall (P : string → Prop) allow res segs :
  P ".." → Forall P res → Forall P segs →
  Forall P (foldl (step allow) res segs).
Proof.
  intros Hdots Hres Hsegs. revert res Hres.
  induction Hsegs as [|seg segs Hseg _ IH]; intros res Hres; [done|].
  simpl. apply IH. unfold step.
  repeat case_bool_decide; try done.
  - destruct (reverse res) as [|last before] eqn:Hrev;
      [destruct allow; by repeat constructor|].
    apply (f_equal reverse) in Hrev.
    rewrite reverse_involutive, reverse_cons in Hrev. subst res.
    apply Forall_app in Hres as [Hbefore Hlast].
    case_bool_decide; [|done].
    destruct allow; simpl; [|by apply Forall_app].
    apply Forall_app. split; [by apply Forall_app|by repeat constructor].
  - apply Forall_app. split; [done|by repeat constructor].
Qed.

Lemma foldl_step_pieces allow res segs :
  Forall (λ w, split slash w = [w]) res →
  Forall (λ w, split slash w = [w]) segs →
  Forall (λ w, split slash w = [w]) (foldl (step allow) res segs).
Proof. by apply foldl_step_Forall. Qed.

(** The pieces of a normalized absolute path: nothing before the leading
    slash, the resolved names, and nothing after a trailing slash. *)
Lemma split_normalize path :
  startsWith slash path = true →
  startsWith slash (normalize path) = true
  ∧ ∃ tail, (tail = [] ∨ tail = [""])
            ∧ split slash (normalize path) = "" :: resolved path ++ tail.
Proof.
  intros Habs. unfold normalize. rewrite Habs.
  rewrite bool_decide_eq_false_2 by (by intros ->).
  change (normalizeSegments (negb true) (split slash path)) with (resolved path).
  pose proof (resolved_isName path) as Hnames.
  destruct (resolved path) as [|w l] eqn:Hres.
  - split; [done|]. exists [""]. split; [by right|done].
  - rewrite bool_decide_eq_false_2 by (by apply join_names_nonempty).
    split; [done|].
    assert (split slash (Str.join "/" (w :: l)) = w :: l) as Hsplit.
    { apply split_join; [done|]. rewrite <- Hres.
      apply foldl_step_pieces; [constructor|apply split_pieces]. }
    destruct (endsWith slash path).
    + exists [""]. split; [by right|].
      change ("/" +:+ Str.join "/" (w :: l) +:+ "/")
        with (String slash (Str.join "/" (w :: l) +:+ String slash "")).
      by rewrite split_cons_sep, split_app, Hsplit.
    + exists []. split; [by left|].
      change ("/" +:+ Str.join "/" (w :: l) +:+ "")
        with (String slash (Str.join "/" (w :: l) +:+ "")).
      by rewrite append_nil_r, split_cons_sep, Hsplit, app_nil_r.
Qed.

(** The segments of a normalized absolute path are its resolved names. *)
Lemma segments_normalize path :
  startsWith slash path = true → segments (normalize path) = resolved path.
Proof.
  intros Habs.
  destruct (split_normalize path Habs) as (_ & tail & Htail & Hsplit).
  unfold segments. rewrite Hsplit.
  rewrite filter_cons_False by (by intros ?).
  rewrite filter_app, filter_all.
  - destruct Htail as [-> | ->]; by rewrite ?app_nil_r.
  - eapply Forall_impl; [apply resolved_isName|].
    intros seg. apply isName_nonempty.
Qed.

(** Normalizing again resolves to the same names. *)
Lemma resolved_normalize path :
  startsWith slash path = true → resolved (normalize path) = resolved path.
Proof.
  intros Habs.
  destruct (split_normalize path Habs) as (_ & tail & Htail & Hsplit).
  unfold resolved at 1. unfold normalizeSegments. rewrite Hsplit.
  pose proof (resolved_isName path) as Hnames.
  rewrite foldl_step_names.
  - rewrite filter_cons_False by done. rewrite filter_app, filter_all by done.
    destruct Htail as [-> | ->]; by rewrite ?app_nil_r.
  - constructor; [done|]. apply Forall_app. split.
    + eapply Forall_impl; [exact Hnames|]. intros seg. apply isName_not_dotdot.
    + destruct Htail as [-> | ->]; by repeat constructor.
Qed.

(** A path joined to an absolute path is absolute and resolved. *)
Lemma join_absolute a b :
  startsWith slash a = true →
  startsWith slash (Path.join a b) = true
  ∧ resolved (Path.join a b) = segments (Path.join a b).
Proof.
  intros Habs.
  assert (∀ path, startsWith slash path = true →
            startsWith slash (normalize path) = true
            ∧ resolved (normalize path) = segments (normalize path)) as Hnorm.
  { intros path Hpath. split; [by apply split_normalize|].
    by rewrite resolved_normalize, segments_normalize. }
  unfold Path.join. rewrite (bool_decide_eq_false_2 (a = "")) by (by intros ->).
  case_bool_decide; [by apply Hnorm|].
  apply Hnorm. by apply startsWith_absolute in Habs as [rest ->].
Qed.

(** Joining a path without [..] segments to an absolute path appends its
    names to the names of that path. *)
Lemma segments_join a b :
  startsWith slash a = true →
  Forall (λ seg, seg ≠ "..") (split slash b) →
  segments (Path.join a b)
  = resolved a ++ filter (λ seg, isName seg = true) (split slash b).
Proof.
  intros Habs Hb. unfold Path.join.
  rewrite (bool_decide_eq_false_2 (a = "")) by (by intros ->).
  case_bool_decide as Hempty.
  - subst b. rewrite segments_normalize by done.
    change (split slash "") with [""].
    rewrite filter_cons_False by done. by rewrite app_nil_r.
  - rewrite segments_normalize
      by (by apply startsWith_absolute in Habs as [rest ->]).
    unfold resolved, normalizeSegments.
    change (a +:+ "/" +:+ b) with (a +:+ String slash b).
    by rewrite split_app, foldl_app, foldl_step_names.
Qed.

(** Below a path inside the root, a path without [..] segments stays
    inside the root. *)
Lemma inside_join root a b :
  startsWith slash a = true →
  resolved a = segments a →
  inside root a →
  Forall (λ seg, seg ≠ "..") (split slash b) →
  inside root (Path.join a b).
Proof.
  intros Habs Hres Hin Hb. unfold inside.
  rewrite segments_join, Hres by done.
  by apply prefix_app_r.
Qed.

Lemma entryName_no_dotdot file :
  entryName file = true → Forall (λ seg, seg ≠ "..") (split slash file).
Proof.
  unfold entryName. intros [Hname Hslash%negb_true_iff]%andb_true_iff.
  rewrite includes_slash_split by done.
  repeat constructor. by apply isName_not_dotdot.
Qed.

(** *** Paths without a NUL byte *)

Lemma hasNul_cons c s :
  Fs.hasNul (String c s) = bool_decide (nul = c) || Fs.hasNul s.
Proof.
  unfold Fs.hasNul. by rewrite includes_cons, isPrefix_cons, andb_true_r.
Qed.

Lemma hasNul_app a b : Fs.hasNul (a +:+ b) = Fs.hasNul a || Fs.hasNul b.
Proof.
  induction a as [|c a IH]; [done|].
  by rewrite append_cons, !hasNul_cons, IH, orb_assoc.
Qed.

Lemma hasNul_split sep s :
  Fs.hasNul s = false → Forall (λ w, Fs.hasNul w = false) (split sep s).
Proof.
  induction s as [|c s IH]; [by repeat constructor|].
  rewrite hasNul_cons. intros [Hc Hs]%orb_false_iff.
  specialize (IH Hs). simpl. destruct (decide (c = sep)); [by constructor|].
  destruct (split sep s) as [|w ws] eqn:Hsplit;
    [by apply split_nonempty in Hsplit|].
  apply Forall_cons in IH as [Hw Hws]. constructor; [|done].
  by rewrite hasNul_cons, Hc, Hw.
Qed.

Lemma hasNul_join l :
  Forall (λ w, Fs.hasNul w = false) l → Fs.hasNul (Str.join "/" l) = false.
Proof.
  induction 1 as [|w l Hw _ IH]; [done|].
  destruct l as [|w' l]; [done|].
  change (Str.join "/" (w :: w' :: l))
    with (w +:+ "/" +:+ Str.join "/" (w' :: l)).
  by rewrite !hasNul_app, Hw, IH.
Qed.

Lemma hasNul_normalize path :
  Fs.hasNul path = false → Fs.hasNul (normalize path) = false.
Proof.
  intros Hpath. unfold normalize.
  case_bool_decide; [done|].
  assert (Fs.hasNul
            (Str.join "/" (normalizeSegments (negb (startsWith slash path))
                                              (split slash path))) = false)
    as Hbody.
  { apply hasNul_join, foldl_step_Forall; [done|constructor|].
    by apply hasNul_split. }
  case_bool_decide.
  - by destruct (startsWith slash path), (endsWith slash path).
  - rewrite !hasNul_app, Hbody.
    by destruct (startsWith slash path), (endsWith slash path).
Qed.

(** Joining paths without a NUL byte gives a path without one. *)
Lemma hasNul_path_join a b :
  Fs.hasNul a = false → Fs.hasNul b = false →
  Fs.hasNul (Path.join a b) = false.
Proof.
  intros Ha Hb. unfold Path.join.
  repeat case_bool_decide; [done|by apply hasNul_normalize..|].
  apply hasNul_normalize. by rewrite !hasNul_app, Ha, Hb.
Qed.

(** *** The index file of a directory *)

Lemma endsWith_piece sep w : split sep w = [w] → endsWith sep w = false.
Proof.
  induction w as [|c w IH]; [done|]. simpl.
  destruct (decide (c = sep)) as [->|Hc]; [done|].
  destruct (split sep w) as [|w1 ws] eqn:Hw; [by apply split_nonempty in Hw|].
  intros [= -> ->]. destruct w as [|c' w]; [by apply bool_decide_eq_false|].
  by apply IH.
Qed.

Lemma endsWith_app c a d b :
  endsWith c (a +:+ String d b) = endsWith c (String d b).
Proof.
  induction a as [|c' a IH]; [done|].
  rewrite append_cons. destruct a as [|c'' a]; [done|].
  rewrite <- IH. done.
Qed.

Lemma resolved_app_name a file :
  isName file = true → split slash file = [file] →
  resolved (a +:+ String slash file) = resolved a ++ [file].
Proof.
  intros Hname Hfile. unfold resolved, normalizeSegments.
  rewrite split_app, foldl_app, Hfile. simpl. by apply step_name.
Qed.

(** The path of a child with a proper name, below an absolute path. *)
Lemma join_name a file :
  startsWith slash a = true →
  isName file = true → split slash file = [file] →
  Path.join a file = "/" +:+ Str.join "/" (resolved a ++ [file]).
Proof.
  intros Habs Hname Hfile. unfold Path.join.
  rewrite (bool_decide_eq_false_2 (a = "")) by (by intros ->).
  rewrite (bool_decide_eq_false_2 (file = "")) by (by apply isName_nonempty).
  change (a +:+ "/" +:+ file) with (a +:+ String slash file).
  unfold normalize.
  assert (startsWith slash (a +:+ String slash file) = true) as ->
    by (by apply startsWith_absolute in Habs as [rest ->]).
  rewrite bool_decide_eq_false_2 by (by destruct a).
  change (normalizeSegments (negb true) (split slash (a +:+ String slash file)))
    with (resolved (a +:+ String slash file)).
  rewrite resolved_app_name by done.
  rewrite bool_decide_eq_false_2.
  - rewrite endsWith_app.
    assert (endsWith slash (String slash file) = false) as ->.
    { destruct file as [|c file]; [by apply isName_nonempty in Hname|].
      change (endsWith slash (String c file) = false).
      by apply endsWith_piece. }
    by rewrite append_nil_r.
  - apply join_names_nonempty; [by destruct (resolved a)|].
    apply Forall_app. split; [apply resolved_isName|by repeat constructor].
Qed.

(** A trailing slash on the request path does not change where the index
    file of the directory is looked for. *)
Lemma index_path_trailing_slash rootDir urlPath :
  startsWith slash rootDir = true →
  includes ".." urlPath = false →
  Path.join (Path.join rootDir (urlPath +:+ "/")) "index.html"
  = Path.join (Path.join rootDir urlPath) "index.html".
Proof.
  intros Habs Hdd.
  assert (Forall (λ seg, seg ≠ "..") (split slash urlPath)) as Hsegs.
  { apply includes_dotdot_split in Hdd.
    eapply Forall_impl; [exact Hdd|]. by intros seg Hseg ->. }
  destruct (join_absolute rootDir urlPath Habs) as [Habs1 Hres1].
  destruct (join_absolute rootDir (urlPath +:+ "/") Habs) as [Habs2 Hres2].
  rewrite (join_name (Path.join rootDir urlPath) "index.html") by done.
  rewrite (join_name (Path.join rootDir (urlPath +:+ "/")) "index.html")
    by done.
  do 3 f_equal.
  rewrite Hres1, Hres2, !segments_join; [|done..| ].
  - change (urlPath +:+ "/") with (urlPath +:+ String slash "").
    rewrite split_app, filter_app. change (split slash "") with [""].
    rewrite (filter_cons_False _ "") by done. by rewrite app_nil_r.
  - change (urlPath +:+ "/") with (urlPath +:+ String slash "").
    rewrite split_app. apply Forall_app. split; [done|by repeat constructor].
Qed.

End PathFacts.

(** ** The outcomes of a request *)

Section Outcomes.
Context (formatBytes : N → string).
Context (toLocaleString : Z → string).
Context (localeCompare : string → string → Z).

Local Abbreviation serve := (handler formatBytes toLocaleString localeCompare).
Local Abbreviation answer := (respond formatBytes toLocaleString localeCompare).

Lemma respond_dotdot fs rootDir method urlPath :
  Str.includes ".." urlPath = true →
  answer fs rootDir method urlPath = ([], inr forbidden).
Proof. intros H. unfold respond. by rewrite H. Qed.

(** C1: a request whose decoded path has a [..] segment anywhere is
    answered 403, text/plain, whatever the file system holds and whatever
    the root is, and nothing at all has been done by then: no event, hence
    no file-system call, and the answer does not depend on the root the
    path would have been joined with. *)
Theorem dotdot_segment_rejected fs rootDir method url urlPath :
  URI.decodeURIComponent (beforeQuery url) = Some urlPath →
  ".." ∈ Str.split Str.slash urlPath →
  serve fs rootDir method url = ([], inr forbidden)
  ∧ status forbidden = 403 ∧ contentType forbidden = "text/plain".
Proof.
  intros Hdec Hseg. split; [|done].
  unfold handler. rewrite Hdec.
  apply respond_dotdot. by eapply segment_includes_dotdot.
Qed.

(** C10: a request whose decoded path contains the two characters [..]
    anywhere is answered 403 before anything is done; so is, in
    particular, every request with a path segment (a file or directory
    name) that contains [..], and a request that is answered otherwise
    names no such file or directory. *)
Theorem dotdot_substring_rejected fs rootDir method url urlPath :
  URI.decodeURIComponent (beforeQuery url) = Some urlPath →
  (Str.includes ".." urlPath = true →
     serve fs rootDir method url = ([], inr forbidden))
  ∧ (∀ name, name ∈ Str.split Str.slash urlPath →
       Str.includes ".." name = true →
       serve fs rootDir method url = ([], inr forbidden))
  ∧ (serve fs rootDir method url ≠ ([], inr forbidden) →
       Forall (λ name, Str.includes ".." name = false)
              (Str.split Str.slash urlPath)).
Proof.
  intros Hdec.
  assert (Str.includes ".." urlPath = true →
          serve fs rootDir method url = ([], inr forbidden)) as Hrej.
  { intros H. unfold handler. rewrite Hdec. by apply respond_dotdot. }
  split_and!; [done| |].
  - intros name Hin Hname. eauto using segment_includes_dotdot.
  - intros Hne. apply includes_dotdot_split.
    destruct (Str.includes ".." urlPath); [|done]. by destruct Hne; auto.
Qed.

(** The handler after a successful decode is [respond]. *)
Lemma handler_decoded fs rootDir method url urlPath :
  URI.decodeURIComponent (beforeQuery url) = Some urlPath →
  serve fs rootDir method url = answer fs rootDir method urlPath.
Proof. intros H. unfold handler. by rewrite H. Qed.

(** [respond] when [fs.stat] fails. *)
Lemma respond_stat_error fs rootDir method urlPath code :
  Str.includes ".." urlPath = false →
  Fs.hasNul (Path.join rootDir urlPath) = false →
  sys_stat fs (Path.join rootDir urlPath) = inl code →
  answer fs rootDir method urlPath
  = ([EvLog method urlPath; EvStat (Path.join rootDir urlPath)], inr notFound).
Proof.
  intros Hdd Hnul Hstat. unfold respond, Fs.stat.
  rewrite Hdd, Hnul. cbn. by rewrite Hstat.
Qed.

(** [respond] for a path that [fs.stat] finds not to be a directory. *)
Lemma respond_file fs rootDir method urlPath stats :
  Str.includes ".." urlPath = false →
  Fs.hasNul (Path.join rootDir urlPath) = false →
  sys_stat fs (Path.join rootDir urlPath) = inr stats →
  isDirectory stats = false →
  answer fs rootDir method urlPath
  = (let filePath := Path.join rootDir urlPath in
     ([EvLog method urlPath; EvStat filePath; EvReadFile filePath],
      inr match sys_readFile fs filePath with
          | inl _ => serverError
          | inr data => ok (mimeTypeOf filePath) data
          end)).
Proof.
  intros Hdd Hnul Hstat Hdir. unfold respond, Fs.stat, Fs.readFile.
  rewrite Hdd, Hnul. cbn. rewrite Hstat, Hdir. cbn.
  by destruct (sys_readFile fs _).
Qed.

(** [respond] for a directory in which [index.html] exists. *)
Lemma respond_index fs rootDir method urlPath stats stats' :
  Str.includes ".." urlPath = false →
  Fs.hasNul (Path.join rootDir urlPath) = false →
  sys_stat fs (Path.join rootDir urlPath) = inr stats →
  isDirectory stats = true →
  sys_stat fs (Path.join (Path.join rootDir urlPath) "index.html") = inr stats' →
  answer fs rootDir method urlPath
  = (let filePath := Path.join rootDir urlPath in
     let indexPath := Path.join filePath "index.html" in
     ([EvLog method urlPath; EvStat filePath; EvExists indexPath;
       EvReadFile indexPath],
      inr match sys_readFile fs indexPath with
          | inl _ => serverError
          | inr data => ok "text/html" data
          end)).
Proof.
  intros Hdd Hnul Hstat Hdir Hstat'.
  pose proof (hasNul_path_join _ "index.html" Hnul eq_refl) as Hnul'.
  unfold respond, Fs.stat, Fs.readFile, Fs.existsSync.
  rewrite Hdd, Hnul. cbn. rewrite Hstat, Hdir, Hnul'. cbn.
  rewrite Hstat'. cbn. by destruct (sys_readFile fs _).
Qed.

(** [respond] for a directory in which [index.html] does not exist. *)
Lemma respond_listing fs rootDir method urlPath stats code :
  Str.includes ".." urlPath = false →
  Fs.hasNul (Path.join rootDir urlPath) = false →
  sys_stat fs (Path.join rootDir urlPath) = inr stats →
  isDirectory stats = true →
  sys_stat fs (Path.join (Path.join rootDir urlPath) "index.html") = inl code →
  answer fs rootDir method urlPath
  = (let filePath := Path.join rootDir urlPath in
     let indexPath := Path.join filePath "index.html" in
     let listing :=
       generateDirectoryListing formatBytes toLocaleString localeCompare
         fs filePath urlPath in
     ([EvLog method urlPath; EvStat filePath; EvExists indexPath] ++ listing.1,
      match listing.2 with
      | inl e => inl e
      | inr html => inr (ok "text/html" html)
      end)).
Proof.
  intros Hdd Hnul Hstat Hdir Hno.
  pose proof (hasNul_path_join _ "index.html" Hnul eq_refl) as Hnul'.
  unfold respond, Fs.stat, Fs.existsSync.
  rewrite Hdd, Hnul. cbn. rewrite Hstat, Hdir, Hnul'. cbn. rewrite Hno. cbn.
  destruct (generateDirectoryListing _ _ _ _ _ _) as [t' [e|html]];
    cbn; by rewrite ?app_nil_r.
Qed.

(** A request whose path does not decode makes the handler throw. *)
Lemma handler_decode_error fs rootDir method url :
  URI.decodeURIComponent (beforeQuery url) = None →
  serve fs rootDir method url = ([], inl URIError).
Proof. intros H. unfold handler. by rewrite H. Qed.

(** C2, as the handler has it: whatever makes [fs.stat] fail on the
    resolved path (no such entry, permission denied, an I/O failure), the
    answer is 404 Not Found; and a 500 is only ever the answer to a
    [fs.readFile] that failed after [fs.stat] had succeeded. *)
Theorem stat_failure_not_found fs rootDir method url urlPath :
  URI.decodeURIComponent (beforeQuery url) = Some urlPath →
  Str.includes ".." urlPath = false →
  Fs.hasNul (Path.join rootDir urlPath) = false →
  (∀ code, sys_stat fs (Path.join rootDir urlPath) = inl code →
     serve fs rootDir method url
     = ([EvLog method urlPath; EvStat (Path.join rootDir urlPath)],
        inr notFound))
  ∧ (∀ t r, serve fs rootDir method url = (t, inr r) → status r = 500 →
       r = serverError
       ∧ ∃ stats path code,
           sys_stat fs (Path.join rootDir urlPath) = inr stats
           ∧ last t = Some (EvReadFile path)
           ∧ sys_readFile fs path = inl code).
Proof.
  intros Hdec Hdd Hnul. rewrite (handler_decoded _ _ _ _ _ Hdec). split.
  - intros code Hstat. by apply (respond_stat_error _ _ _ _ code).
  - intros t r Hrun Hstatus.
    destruct (sys_stat fs (Path.join rootDir urlPath)) as [code|stats] eqn:Hstat.
    { rewrite (respond_stat_error _ _ _ _ code) in Hrun by done.
      by simplify_eq. }
    destruct (isDirectory stats) eqn:Hdir.
    + destruct (sys_stat fs (Path.join (Path.join rootDir urlPath) "index.html"))
        as [code'|stats'] eqn:Hstat'.
      * rewrite (respond_listing _ _ _ _ stats code') in Hrun by done.
        cbn in Hrun.
        destruct (generateDirectoryListing _ _ _ _ _ _) as [t' [e|html]];
          simplify_eq/=.
      * rewrite (respond_index _ _ _ _ stats stats') in Hrun by done.
        cbn in Hrun.
        destruct (sys_readFile fs _) as [code|data] eqn:Hread;
          simplify_eq; try done.
        split; [done|]. eexists stats, _, code. split_and!; [done|reflexivity|done].
    + rewrite (respond_file _ _ _ _ stats) in Hrun by done. cbn in Hrun.
      destruct (sys_readFile fs _) as [code|data] eqn:Hread;
        simplify_eq; try done.
      split; [done|]. eexists stats, _, code. split_and!; [done|reflexivity|done].
Qed.


(** C6: when the resolved path of a request is a directory in which
    [index.html] exists, the answer is 200, text/html, with the content of
    that file, and no listing is generated (the directory is never read);
    when reading that file fails, the answer is 500, not 404.  The request
    path may or may not end in a slash: the theorem holds for any request
    path that resolves to the directory. *)
Theorem directory_index_served fs rootDir method url urlPath stats stats' :
  URI.decodeURIComponent (beforeQuery url) = Some urlPath →
  Str.includes ".." urlPath = false →
  Fs.hasNul (Path.join rootDir urlPath) = false →
  sys_stat fs (Path.join rootDir urlPath) = inr stats →
  isDirectory stats = true →
  sys_stat fs (Path.join (Path.join rootDir urlPath) "index.html")
    = inr stats' →
  ∃ r,
    serve fs rootDir method url
    = ([EvLog method urlPath; EvStat (Path.join rootDir urlPath);
        EvExists (Path.join (Path.join rootDir urlPath) "index.html");
        EvReadFile (Path.join (Path.join rootDir urlPath) "index.html")],
       inr r)
    ∧ (∀ data,
         sys_readFile fs (Path.join (Path.join rootDir urlPath) "index.html")
           = inr data →
         r = {| status := 200; contentType := "text/html"; body := data |})
    ∧ (∀ code,
         sys_readFile fs (Path.join (Path.join rootDir urlPath) "index.html")
           = inl code →
         r = serverError ∧ status r = 500).
Proof.
  intros Hdec Hdd Hnul Hstat Hdir Hstat'.
  rewrite (handler_decoded _ _ _ _ _ Hdec).
  rewrite (respond_index _ _ _ _ stats stats') by done. cbn.
  eexists. split; [done|].
  destruct (sys_readFile fs _); split; intros; by simplify_eq.
Qed.

(** When the handler answers, the status is one of four. *)
Lemma handler_status fs rootDir method url t r :
  serve fs rootDir method url = (t, inr r) →
  status r = 200 ∨ status r = 403 ∨ status r = 404 ∨ status r = 500.
Proof.
  unfold handler, respond, Fs.stat, Fs.existsSync, Fs.readFile.
  destruct (URI.decodeURIComponent _) as [urlPath|]; [|done].
  destruct (Str.includes ".." urlPath); [intros [= _ <-]; auto|].
  destruct (Fs.hasNul (Path.join rootDir urlPath)); [done|]. cbn.
  destruct (sys_stat fs (Path.join rootDir urlPath)) as [code|stats];
    [intros [= _ <-]; auto|].
  destruct (isDirectory stats).
  - destruct (Fs.hasNul (Path.join (Path.join rootDir urlPath) "index.html")).
    + cbn. destruct (generateDirectoryListing _ _ _ _ _ _) as [t' [e|html]];
        cbn; intros [= _ <-]; auto.
    + cbn. destruct (sys_stat fs _) as [code'|stats']; cbn.
      * destruct (generateDirectoryListing _ _ _ _ _ _) as [t' [e|html]];
          cbn; intros [= _ <-]; auto.
      * destruct (sys_readFile fs _); intros [= _ <-]; auto.
  - cbn. destruct (sys_readFile fs _); intros [= _ <-]; auto.
Qed.

End Outcomes.

(** ** Content types *)

Section ContentTypes.

Lemma MIME_TYPES_spec : MIME_TYPES = list_to_map (dotted <$> specContentTypes).
Proof. reflexivity. Qed.

Lemma specContentTypes_NoDup : NoDup (dotted <$> specContentTypes).*1.
Proof. apply (bool_decide_unpack _). by vm_compute. Qed.

Lemma MIME_TYPES_lookup_Some e type :
  (e, type) ∈ specContentTypes → MIME_TYPES !! ("." +:+ e) = Some type.
Proof.
  intros Hin. rewrite MIME_TYPES_spec.
  apply elem_of_list_to_map_1; [apply specContentTypes_NoDup|].
  apply (list_elem_of_fmap_2 dotted) in Hin. exact Hin.
Qed.

Lemma MIME_TYPES_lookup_None ext :
  (∀ e type, (e, type) ∈ specContentTypes → ext ≠ "." +:+ e) →
  MIME_TYPES !! ext = None.
Proof.
  intros Hnone. rewrite MIME_TYPES_spec.
  apply not_elem_of_list_to_map_1.
  intros ([k v] & -> & ([e type] & [= -> ->] & Hin)%list_elem_of_fmap)%list_elem_of_fmap.
  by eapply Hnone.
Qed.

(** C9: the content type is a function of the lowered extension of the
    served path alone: for each extension of the specification's table it
    is the type the table gives, for every other extension it is
    application/octet-stream, and two paths whose extensions differ in
    letter case only get the same type. *)
Theorem content_type_by_extension filePath :
  (∀ e type, (e, type) ∈ specContentTypes →
     Str.toLowerCase (Path.extname filePath) = "." +:+ e →
     mimeTypeOf filePath = type)
  ∧ ((∀ e type, (e, type) ∈ specContentTypes →
        Str.toLowerCase (Path.extname filePath) ≠ "." +:+ e) →
     mimeTypeOf filePath = "application/octet-stream")
  ∧ (∀ other,
       Str.toLowerCase (Path.extname other)
       = Str.toLowerCase (Path.extname filePath) →
       mimeTypeOf other = mimeTypeOf filePath).
Proof.
  unfold mimeTypeOf. split_and!.
  - intros e type Hin ->. by rewrite (MIME_TYPES_lookup_Some e type).
  - intros Hnone. by rewrite MIME_TYPES_lookup_None.
  - by intros other ->.
Qed.

End ContentTypes.

(** ** Sorting *)

Section SortFacts.
Context {A : Type} (compare : A → A → Z).

(** What [Array.prototype.sort] asks of its comparison, as far as the
    order of the result goes. *)
Hypothesis compare_total : ∀ a b, 0 < compare a b → compare b a ≤ 0.
Hypothesis compare_trans :
  ∀ a b c, compare a b ≤ 0 → compare b c ≤ 0 → compare a c ≤ 0.

Lemma insert_sorted_perm x l : insert_sorted compare x l ≡ₚ x :: l.
Proof using Type.
  induction l as [|y l IH]; simpl; [done|].
  destruct (compare x y <=? 0); [done|].
  rewrite IH. apply Permutation_swap.
Qed.

Lemma sort_perm l : sort compare l ≡ₚ l.
Proof using Type.
  induction l as [|x l IH]; simpl; [done|].
  by rewrite insert_sorted_perm, IH.
Qed.

Lemma insert_sorted_sorted x l :
  StronglySorted (before compare) l → StronglySorted (before compare) (insert_sorted compare x l).
Proof using compare_total compare_trans.
  induction l as [|y l IH]; intros Hl; simpl.
  - by repeat constructor.
  - apply StronglySorted_cons in Hl as [Hy Hl].
    destruct (Z.leb_spec (compare x y) 0) as [Hle|Hgt].
    + apply StronglySorted_cons. split; [|by apply StronglySorted_cons].
      constructor; [done|].
      eapply Forall_impl; [exact Hy|]. intros z Hz. by eapply compare_trans.
    + apply StronglySorted_cons. split; [|by apply IH].
      rewrite insert_sorted_perm. constructor; [|done].
      by apply compare_total.
Qed.

Lemma sort_sorted l : StronglySorted (before compare) (sort compare l).
Proof using compare_total compare_trans.
  induction l as [|x l IH]; simpl; [constructor|].
  by apply insert_sorted_sorted.
Qed.

End SortFacts.

(** ** Directory listings *)

Section Listing.
Context (formatBytes : N → string).
Context (toLocaleString : Z → string).
Context (localeCompare : string → string → Z).

Local Abbreviation serve := (handler formatBytes toLocaleString localeCompare).
Local Abbreviation listing :=
  (generateDirectoryListing formatBytes toLocaleString localeCompare).
Local Abbreviation items := (listingItems formatBytes localeCompare).
Local Abbreviation compareBy := (compareItems localeCompare).
Local Abbreviation item := (itemOf formatBytes).
Local Abbreviation rows := (renderRows toLocaleString).
Local Abbreviation entry := (entryOf formatBytes).

(** Ascending by name, as [localeCompare] has it. *)
Local Abbreviation byName :=
  (λ a b : Item, localeCompare (name a) (name b) ≤ 0).

Lemma makeItem_ok fs dirPath urlPath file stat :
  Fs.hasNul (Path.join dirPath file) = false →
  sys_stat fs (Path.join dirPath file) = inr stat →
  makeItem formatBytes fs dirPath urlPath file
  = ([EvStat (Path.join dirPath file)], inr (item urlPath file stat)).
Proof.
  intros Hnul Hstat. unfold makeItem, Fs.statSync.
  rewrite Hnul. cbn. by rewrite Hstat.
Qed.

Lemma mapM_makeItem_ok fs dirPath urlPath files :
  Forall (childOk fs dirPath) files →
  ∃ entries,
    mapM (makeItem formatBytes fs dirPath urlPath) files
    = ((λ file, EvStat (Path.join dirPath file)) <$> files, inr entries)
    ∧ Forall2 (entry fs dirPath urlPath) files entries.
Proof.
  induction 1 as [|file files [Hnul [stat Hstat]] _ (entries & Hrun & Hall)].
  - by exists [].
  - exists (item urlPath file stat :: entries). split.
    + cbn [mapM]. rewrite (makeItem_ok _ _ _ _ stat) by done. cbn.
      rewrite Hrun. cbn. by rewrite app_nil_r.
    + constructor; [|done]. unfold entryOf. eauto.
Qed.

Section Order.
Hypothesis localeCompare_total :
  ∀ a b, 0 < localeCompare a b → localeCompare b a ≤ 0.
Hypothesis localeCompare_trans :
  ∀ a b c, localeCompare a b ≤ 0 → localeCompare b c ≤ 0 →
           localeCompare a c ≤ 0.

Lemma compareItems_total a b : 0 < compareBy a b → compareBy b a ≤ 0.
Proof using localeCompare_total.
  unfold compareItems.
  destruct (isDir a), (isDir b); simpl; auto; lia.
Qed.

Lemma compareItems_trans a b c :
  compareBy a b ≤ 0 → compareBy b c ≤ 0 → compareBy a c ≤ 0.
Proof using localeCompare_trans.
  unfold compareItems.
  destruct (isDir a), (isDir b), (isDir c); simpl; eauto; lia.
Qed.

End Order.

(** A directory never stands after a file. *)
Lemma before_kind a b :
  before compareBy a b → isDir b = true → isDir a = true.
Proof.
  unfold before, compareItems.
  destruct (isDir a), (isDir b); simpl; auto; lia.
Qed.

Lemma before_byName a b :
  before compareBy a b → isDir a = isDir b → byName a b.
Proof.
  unfold before, compareItems.
  by destruct (isDir a), (isDir b).
Qed.

(** A list in the order of [compareBy] is its directories followed by
    its files. *)
Lemma sorted_dirs_then_files l :
  StronglySorted (before compareBy) l →
  l = filter (λ i, isDir i = true) l ++ filter (λ i, isDir i = false) l.
Proof.
  induction 1 as [|a l Hl IH Ha]; [done|].
  rewrite !filter_cons. destruct (isDir a) eqn:Hdir.
  - rewrite decide_True, decide_False by done. simpl. by f_equal.
  - rewrite decide_False, decide_True by done.
    assert (filter (λ i, isDir i = true) l = []) as Hnone.
    { clear -Ha Hdir. induction Ha as [|b l Hab _ IHa]; [done|].
      rewrite filter_cons_False; [done|].
      intros Hb. apply before_kind in Hab; congruence. }
    rewrite Hnone in IH |- *. simpl in *. by f_equal.
Qed.

Lemma sorted_filter_byName (keep : bool) l :
  StronglySorted (before compareBy) l →
  StronglySorted byName (filter (λ i, isDir i = keep) l).
Proof.
  induction 1 as [|a l Hl IH Ha]; [constructor|].
  rewrite filter_cons. case_decide as Hkeep; [|done].
  constructor; [done|].
  apply Forall_forall. intros b [Hb Hin]%list_elem_of_filter.
  rewrite Forall_forall in Ha. apply before_byName; [by apply Ha|congruence].
Qed.

(** The items of a listing when the directory and its children can be
    read. *)
Lemma listingItems_ok fs dirPath urlPath files :
  Fs.hasNul dirPath = false →
  sys_readdir fs dirPath = inr files →
  Forall (childOk fs dirPath) files →
  ∃ entries,
    items fs dirPath urlPath
    = (EvReaddir dirPath :: ((λ file, EvStat (Path.join dirPath file)) <$> files),
       inr (sort compareBy entries))
    ∧ Forall2 (entry fs dirPath urlPath) files entries.
Proof.
  intros Hnul Hdir Hfiles.
  destruct (mapM_makeItem_ok fs dirPath urlPath files Hfiles)
    as (entries & Hrun & Hall).
  exists entries. split; [|done].
  unfold listingItems, Fs.readdirSync. rewrite Hnul. cbn.
  rewrite Hdir. cbn. rewrite Hrun. cbn. by rewrite app_nil_r.
Qed.

Lemma listing_items fs dirPath urlPath :
  listing fs dirPath urlPath
  = ((items fs dirPath urlPath).1,
     match (items fs dirPath urlPath).2 with
     | inl e => inl e
     | inr sorted =>
         inr (Html.page dirPath urlPath (parentOf urlPath) (rows sorted))
     end).
Proof.
  unfold generateDirectoryListing.
  destruct (items fs dirPath urlPath) as [t [e|sorted]]; cbn;
    by rewrite ?app_nil_r.
Qed.



End Listing.

(** ** Requests stay inside the root *)

Section Containment.
Context (formatBytes : N → string).
Context (toLocaleString : Z → string).
Context (localeCompare : string → string → Z).
Context (root : string).

Local Abbreviation serve := (handler formatBytes toLocaleString localeCompare).

Lemma traceInside_bind {A B} (m : M A) (f : A → M B) :
  traceInside root m.1 →
  (∀ x, m.2 = inr x → traceInside root (f x).1) →
  traceInside root (m ≫= f).1.
Proof.
  destruct m as [t [e|x]]; cbn; intros Ht Hf; [done|].
  specialize (Hf x eq_refl). destruct (f x) as [t' r]. cbn in *.
  by apply Forall_app.
Qed.

Lemma traceInside_one (e : event) :
  (∀ path, fsPath e = Some path → Path.inside root path) →
  traceInside root [e].
Proof. intros He. by repeat constructor. Qed.

Lemma traceInside_stat fs path :
  Path.inside root path → traceInside root (Fs.stat fs path).1.
Proof.
  intros Hin. unfold Fs.stat. case_match; [constructor|].
  apply traceInside_one. by intros ? [= <-].
Qed.

Lemma traceInside_readFile fs path :
  Path.inside root path → traceInside root (Fs.readFile fs path).1.
Proof.
  intros Hin. unfold Fs.readFile. case_match; [constructor|].
  apply traceInside_one. by intros ? [= <-].
Qed.

Lemma traceInside_existsSync fs path :
  Path.inside root path → traceInside root (Fs.existsSync fs path).1.
Proof.
  intros Hin. unfold Fs.existsSync. case_match; [constructor|].
  apply traceInside_one. by intros ? [= <-].
Qed.

Lemma traceInside_statSync fs path :
  Path.inside root path → traceInside root (Fs.statSync fs path).1.
Proof.
  intros Hin. unfold Fs.statSync. case_match; [constructor|].
  destruct (sys_stat fs path); cbn; apply traceInside_one; by intros ? [= <-].
Qed.

Lemma traceInside_readdirSync fs path :
  Path.inside root path → traceInside root (Fs.readdirSync fs path).1.
Proof.
  intros Hin. unfold Fs.readdirSync. case_match; [constructor|].
  destruct (sys_readdir fs path); cbn; apply traceInside_one;
    by intros ? [= <-].
Qed.

Lemma readdirSync_names fs path files :
  namesOk fs → (Fs.readdirSync fs path).2 = inr files →
  Forall (λ file, entryName file = true) files.
Proof.
  intros Hfs. unfold Fs.readdirSync. case_match; [done|]. cbn.
  destruct (sys_readdir fs path) as [code|files'] eqn:Hdir; cbn; [done|].
  intros [= <-]. by eapply Hfs.
Qed.

(** The listing of a directory inside the root looks at nothing outside
    the root. *)
Lemma traceInside_listing fs dirPath urlPath :
  namesOk fs →
  Str.startsWith Str.slash dirPath = true →
  Path.resolved dirPath = Path.segments dirPath →
  Path.inside root dirPath →
  traceInside root
    (generateDirectoryListing formatBytes toLocaleString localeCompare
       fs dirPath urlPath).1.
Proof.
  intros Hfs Habs Hres Hin.
  unfold generateDirectoryListing, listingItems.
  apply traceInside_bind; [|intros; by apply Forall_nil].
  apply traceInside_bind; [by apply traceInside_readdirSync|].
  intros files Hfiles%(readdirSync_names _ _ _ Hfs).
  apply traceInside_bind; [|intros; by apply Forall_nil].
  induction Hfiles as [|file files Hfile _ IH]; [constructor|].
  cbn [mapM]. apply traceInside_bind.
  - unfold makeItem. apply traceInside_bind; [|intros; by apply Forall_nil].
    apply traceInside_statSync.
    apply inside_join; [done..|by apply entryName_no_dotdot].
  - intros item _. apply traceInside_bind; [done|intros; by apply Forall_nil].
Qed.

Lemma no_dotdot_segments urlPath :
  Str.includes ".." urlPath = false →
  Forall (λ seg, seg ≠ "..") (Str.split Str.slash urlPath).
Proof.
  intros H%includes_dotdot_split.
  eapply Forall_impl; [exact H|]. by intros seg Hseg ->.
Qed.

Section Root.
Hypothesis root_absolute : Str.startsWith Str.slash root = true.
Hypothesis root_normalized : Path.normalize root = root.

Lemma root_resolved : Path.resolved root = Path.segments root.
Proof using root_absolute root_normalized.
  by rewrite <- root_normalized at 2; rewrite segments_normalize.
Qed.

(** The resolved path of a request that passes the [..] check. *)
Lemma filePath_inside urlPath :
  Str.includes ".." urlPath = false → Path.inside root (Path.join root urlPath).
Proof using root_absolute root_normalized.
  intros Hdd. apply inside_join; auto using root_resolved, no_dotdot_segments.
  by unfold Path.inside.
Qed.

Lemma traceInside_respond fs method urlPath :
  namesOk fs →
  traceInside root
    (respond formatBytes toLocaleString localeCompare fs root method urlPath).1.
Proof using root_absolute root_normalized.
  intros Hfs. unfold respond.
  destruct (Str.includes ".." urlPath) eqn:Hdd; [by apply Forall_nil|].
  pose proof (filePath_inside urlPath Hdd) as Hin.
  destruct (join_absolute root urlPath root_absolute) as [Habs Hres].
  apply traceInside_bind; [by apply traceInside_one|]. intros _ _.
  apply traceInside_bind; [by apply traceInside_stat|].
  intros [code|stats] _; [by apply Forall_nil|].
  destruct (isDirectory stats).
  - assert (Path.inside root
              (Path.join (Path.join root urlPath) "index.html")) as Hindex.
    { apply inside_join; [done..|]. by repeat constructor. }
    apply traceInside_bind; [by apply traceInside_existsSync|].
    intros [] _.
    + apply traceInside_bind; [by apply traceInside_readFile|].
      intros [code|data] _; by apply Forall_nil.
    + apply traceInside_bind; [by apply traceInside_listing|].
      intros; by apply Forall_nil.
  - apply traceInside_bind; [by apply traceInside_readFile|].
    intros [code|data] _; by apply Forall_nil.
Qed.

(** C3: the root being an absolute, normalized path and directories
    holding proper names, every path the handler hands to the file system,
    for any request, is the root or lies below it; the path made by joining
    the root and the decoded request path of a request that is not rejected
    is the root or lies below it and has no [.] or [..] segment left; and a
    request for which that path would not be inside the root is rejected
    with no file-system call made. *)
Theorem requests_stay_inside_root fs method url :
  namesOk fs →
  traceInside root (serve fs root method url).1
  ∧ ∀ urlPath,
      URI.decodeURIComponent (beforeQuery url) = Some urlPath →
      (serve fs root method url ≠ ([], inr forbidden) →
         Path.inside root (Path.join root urlPath)
         ∧ Forall (λ seg, Path.isName seg = true)
                  (Path.segments (Path.join root urlPath)))
      ∧ (¬ Path.inside root (Path.join root urlPath) →
           serve fs root method url = ([], inr forbidden)).
Proof using root_absolute root_normalized.
  intros Hfs. split.
  - unfold handler. destruct (URI.decodeURIComponent _); [|by apply Forall_nil].
    by apply traceInside_respond.
  - intros urlPath Hdec. unfold handler. rewrite Hdec.
    destruct (Str.includes ".." urlPath) eqn:Hdd.
    + rewrite respond_dotdot by done. by split.
    + split; [|by intros []; apply filePath_inside].
      intros _. split; [by apply filePath_inside|].
      destruct (join_absolute root urlPath root_absolute) as [_ <-].
      apply resolved_isName.
Qed.

End Root.

End Containment.


(** ** The sample site *)

Section SampleFacts.
Import Sample.

Lemma child_wellNamed entries seg n :
  wellNamed (Dir entries) = true → child entries seg = Some n →
  wellNamed n = true.
Proof.
  induction entries as [|[file n'] entries IH]; [done|].
  cbn [wellNamed forallb child].
  intros [[_ Hn']%andb_true_iff Hrest]%andb_true_iff.
  case_decide; [by intros [= <-]|]. by apply IH.
Qed.

Lemma walk_wellNamed segs tree n :
  wellNamed tree = true → walk segs tree = inr n → wellNamed n = true.
Proof.
  revert tree. induction segs as [|seg segs IH]; intros tree Htree.
  - by intros [= <-].
  - destruct tree as [content|entries|]; [done| |done]. cbn [walk].
    destruct (child entries seg) as [n'|] eqn:Hchild; [|done].
    apply IH. by eapply child_wellNamed.
Qed.

Lemma treeFS_namesOk tree : wellNamed tree = true → namesOk (treeFS tree).
Proof.
  intros Htree path files. cbn. unfold resolve.
  destruct (walk _ tree) as [code|[content|entries|]] eqn:Hwalk;
    [done| |intros [= <-]|done].
  { by destruct (Str.endsWith _ _). }
  apply walk_wellNamed in Hwalk; [|done]. clear -Hwalk.
  induction entries as [|[file n'] entries IH]; [constructor|].
  cbn [wellNamed forallb] in Hwalk.
  apply andb_true_iff in Hwalk as [[Hfile _]%andb_true_iff Hrest].
  constructor; [done|]. by apply IH.
Qed.

Lemma fs_namesOk : namesOk fs.
Proof. by apply treeFS_namesOk. Qed.

(** The sample collation is a consistent comparison. *)
Lemma localeCompare_total a b :
  0 < localeCompare a b → localeCompare b a ≤ 0.
Proof.
  unfold localeCompare.
  rewrite (String.compare_antisym (Str.toLowerCase a) (Str.toLowerCase b)).
  by destruct (String.compare (Str.toLowerCase b) (Str.toLowerCase a)).
Qed.

Lemma localeCompare_le a b :
  localeCompare a b ≤ 0 ↔ String.le (Str.toLowerCase a) (Str.toLowerCase b).
Proof.
  unfold localeCompare, String.le, String.leb.
  destruct (String.compare _ _); simpl; intuition (done || lia).
Qed.

Lemma localeCompare_trans a b c :
  localeCompare a b ≤ 0 → localeCompare b c ≤ 0 → localeCompare a c ≤ 0.
Proof. rewrite !localeCompare_le. apply transitivity. Qed.

End SampleFacts.

(** ** The handler on the sample site *)

Section SampleRequests.
Import Sample.

Local Abbreviation F := Sample.formatBytes.
Local Abbreviation T := Sample.toLocaleString.
Local Abbreviation L := Sample.localeCompare.

Lemma dotdot_segment_rejected_witness :
  URI.decodeURIComponent (beforeQuery "/%2e%2e/%2E%2E/etc/passwd?download=1")
    = Some "/../../etc/passwd"
  ∧ (handle "GET" "/%2e%2e/%2E%2E/etc/passwd?download=1" = ([], inr forbidden)
     ∧ status forbidden = 403 ∧ contentType forbidden = "text/plain").
Proof.
  split; [reflexivity|].
  apply (dotdot_segment_rejected F T L fs rootDir "GET"
           "/%2e%2e/%2E%2E/etc/passwd?download=1" "/../../etc/passwd").
  - reflexivity.
  - apply (bool_decide_unpack _). vm_compute. exact I.
Defined.

Lemma dotdot_substring_rejected_witness :
  URI.decodeURIComponent (beforeQuery "/notes..txt") = Some "/notes..txt"
  ∧ sys_readFile fs "/srv/www/notes..txt" = inr "to do"
  ∧ handle "GET" "/notes..txt" = ([], inr forbidden).
Proof.
  split; [reflexivity|]. split; [reflexivity|].
  apply (proj1 (dotdot_substring_rejected F T L fs rootDir "GET"
                  "/notes..txt" "/notes..txt" eq_refl)).
  reflexivity.
Defined.

(** The entry [/srv/www/locked/secret] exists and may not be looked at:
    [fs.stat] fails with EACCES, not ENOENT, and the answer is 404, not
    500. *)
Lemma permission_denied_answered_404 :
  sys_stat fs (Path.join rootDir "/locked/secret") = inl EACCES
  ∧ EACCES ≠ ENOENT
  ∧ handle "GET" "/locked/secret"
    = ([EvLog "GET" "/locked/secret"; EvStat "/srv/www/locked/secret"],
       inr notFound)
  ∧ status notFound = 404
  ∧ (handle "GET" "/locked/secret").2 ≠ inr serverError.
Proof. split_and!; [reflexivity|done|reflexivity|reflexivity|by vm_compute]. Qed.

Lemma stat_failure_not_found_witness :
  sys_stat fs (Path.join rootDir "/locked/secret") = inl EACCES
  ∧ handle "GET" "/locked/secret"
    = ([EvLog "GET" "/locked/secret";
        EvStat (Path.join rootDir "/locked/secret")], inr notFound).
Proof.
  split; [reflexivity|].
  apply (proj1 (stat_failure_not_found F T L fs rootDir "GET"
                  "/locked/secret" "/locked/secret"
                  eq_refl eq_refl eq_refl) EACCES).
  reflexivity.
Defined.

(** C4, where the handler falls short of it: a request target with a
    malformed escape makes [decodeURIComponent] throw out of the handler, on
    any file system; so does a request path with an encoded NUL byte, in
    [fs.stat]; and a child that cannot be looked at makes [fs.statSync]
    throw out of the listing.  None of the three requests is answered. *)
Theorem errors_escape_handler :
  (∀ formatBytes toLocaleString localeCompare fs rootDir method,
     handler formatBytes toLocaleString localeCompare fs rootDir method "/%"
     = ([], inl URIError))
  ∧ handle "GET" "/%00"
    = ([EvLog "GET" ("/" +:+ String Str.nul "")],
       inl (InvalidArgValue ("/srv/www/" +:+ String Str.nul "")))
  ∧ handle "GET" "/locked"
    = ([EvLog "GET" "/locked"; EvStat "/srv/www/locked";
        EvExists "/srv/www/locked/index.html"; EvReaddir "/srv/www/locked";
        EvStat "/srv/www/locked/secret"],
       inl (FsError EACCES "/srv/www/locked/secret")).
Proof. split_and!; [by intros|reflexivity|reflexivity]. Qed.


Example photo_served :
  handle "GET" "/photo.JPG"
  = ([EvLog "GET" "/photo.JPG"; EvStat "/srv/www/photo.JPG";
      EvReadFile "/srv/www/photo.JPG"],
     inr {| status := 200; contentType := "image/jpeg"; body := "JFIF" |}).
Proof. reflexivity. Qed.

Lemma directory_index_served_witness :
  ∃ r,
    handle "GET" "/docs"
    = ([EvLog "GET" "/docs"; EvStat (Path.join rootDir "/docs");
        EvExists (Path.join (Path.join rootDir "/docs") "index.html");
        EvReadFile (Path.join (Path.join rootDir "/docs") "index.html")],
       inr r)
    ∧ (∀ data,
         sys_readFile fs (Path.join (Path.join rootDir "/docs") "index.html")
           = inr data →
         r = {| status := 200; contentType := "text/html"; body := data |})
    ∧ (∀ code,
         sys_readFile fs (Path.join (Path.join rootDir "/docs") "index.html")
           = inl code →
         r = serverError ∧ status r = 500).
Proof.
  apply (directory_index_served F T L fs rootDir "GET" "/docs" "/docs"
           {| isDirectory := true; size := 4096; mtime := 0 |}
           {| isDirectory := false; size := 13; mtime := 0 |});
    reflexivity.
Defined.

(** With and without the trailing slash, and an [index.html] that cannot
    be read as a file. *)
Example docs_index_served :
  handle "GET" "/docs"
  = ([EvLog "GET" "/docs"; EvStat "/srv/www/docs";
      EvExists "/srv/www/docs/index.html";
      EvReadFile "/srv/www/docs/index.html"],
     inr (ok "text/html" "<h1>docs</h1>"))
  ∧ handle "GET" "/docs/"
    = ([EvLog "GET" "/docs/"; EvStat "/srv/www/docs/";
        EvExists "/srv/www/docs/index.html";
        EvReadFile "/srv/www/docs/index.html"],
       inr (ok "text/html" "<h1>docs</h1>"))
  ∧ handle "GET" "/broken"
    = ([EvLog "GET" "/broken"; EvStat "/srv/www/broken";
        EvExists "/srv/www/broken/index.html";
        EvReadFile "/srv/www/broken/index.html"],
       inr serverError).
Proof. by split_and!. Qed.

Lemma content_type_by_extension_witness :
  mimeTypeOf "/srv/www/photo.JPG" = "image/jpeg"
  ∧ mimeTypeOf "/srv/www/photo.JPG" = mimeTypeOf "/srv/www/photo.jpg".
Proof.
  destruct (content_type_by_extension "/srv/www/photo.jpg")
    as (Htable & _ & Hcase).
  rewrite (Hcase "/srv/www/photo.JPG" eq_refl). split; [|reflexivity].
  apply (Htable "jpg" "image/jpeg"); [|reflexivity].
  apply (bool_decide_unpack _). vm_compute. exact I.
Defined.

Example unknown_extension :
  mimeTypeOf "/srv/www/archive.xyz" = "application/octet-stream"
  ∧ mimeTypeOf "/srv/www/Makefile" = "application/octet-stream"
  ∧ mimeTypeOf "/srv/www/.html" = "application/octet-stream".
Proof. by split_and!. Qed.

End SampleRequests.

Section SampleListings.
Import Sample.

Local Abbreviation F := Sample.formatBytes.
Local Abbreviation T := Sample.toLocaleString.
Local Abbreviation L := Sample.localeCompare.

(** The children of the served directory, as [readdir] gives them. *)
Local Abbreviation children :=
  ["banana.txt"; "Apple"; "photo.JPG"; "notes..txt"; "docs"; "cherry.bin";
   "locked"; "broken"].


(** The directory [Apple] comes first and the file [banana.txt] after all
    directories. *)
Example apple_before_banana :
  (λ r : exn + list Item, match r with inr l => name <$> l | inl _ => [] end)
    (listingItems F L fs "/srv/www/" "/").2
  = ["Apple"; "broken"; "docs"; "locked";
     "banana.txt"; "cherry.bin"; "notes..txt"; "photo.JPG"].
Proof. reflexivity. Qed.


(** The listing of the root has no parent row; the listing of [/Apple] has
    the parent row that links to [/]. *)
Example parent_rows :
  parentOf "/" = ""
  ∧ parentOf "/Apple" = Html.parentRow "/"
  ∧ parentOf "/docs/api/" = Html.parentRow "/docs".
Proof. by split_and!. Qed.

Lemma requests_stay_inside_root_witness :
  traceInside rootDir (handle "GET" "/?sort=name").1
  ∧ ∀ urlPath,
      URI.decodeURIComponent (beforeQuery "/?sort=name") = Some urlPath →
      (handle "GET" "/?sort=name" ≠ ([], inr forbidden) →
         Path.inside rootDir (Path.join rootDir urlPath)
         ∧ Forall (λ seg, Path.isName seg = true)
                  (Path.segments (Path.join rootDir urlPath)))
      ∧ (¬ Path.inside rootDir (Path.join rootDir urlPath) →
           handle "GET" "/?sort=name" = ([], inr forbidden)).
Proof.
  apply (requests_stay_inside_root F T L rootDir eq_refl eq_refl fs "GET"
           "/?sort=name" fs_namesOk).
Defined.

(** That request looks at the served directory and at each of its
    children. *)
Example listing_trace :
  (handle "GET" "/?sort=name").1
  = [EvLog "GET" "/"; EvStat "/srv/www/"; EvExists "/srv/www/index.html";
     EvReaddir "/srv/www/"; EvStat "/srv/www/banana.txt";
     EvStat "/srv/www/Apple"; EvStat "/srv/www/photo.JPG";
     EvStat "/srv/www/notes..txt"; EvStat "/srv/www/docs";
     EvStat "/srv/www/cherry.bin"; EvStat "/srv/www/locked";
     EvStat "/srv/www/broken"].
Proof. reflexivity. Qed.

(** A request that would leave the root: the path it would resolve to is
    outside, and it is rejected. *)
Example escape_outside_root :
  Path.join rootDir "/docs/../../etc/passwd" = "/srv/etc/passwd"
  ∧ ¬ Path.inside rootDir "/srv/etc/passwd"
  ∧ handle "GET" "/docs/../../etc/passwd" = ([], inr forbidden).
Proof.
  split_and!; [reflexivity| |reflexivity]. unfold Path.inside.
  intros [k Hk]. vm_compute in Hk. discriminate.
Qed.

End SampleListings.

(** ** More about paths *)

Section PathMore.
Import Str Path.

Lemma endsWith_cons c d s : s ≠ "" → endsWith c (String d s) = endsWith c s.
Proof. by destruct s. Qed.

Lemma join_cons2 w w' l :
  Str.join "/" (w :: w' :: l) = w +:+ String slash (Str.join "/" (w' :: l)).
Proof. done. Qed.

(** A path made of names does not end in a slash. *)
Lemma endsWith_join_names l :
  l ≠ [] →
  Forall (λ w, isName w = true) l → Forall (λ w, split slash w = [w]) l →
  endsWith slash (Str.join "/" l) = false.
Proof.
  induction l as [|w l IH]; [done|].
  intros _ [Hw Hl]%Forall_cons [Hw' Hl']%Forall_cons.
  destruct l as [|w2 l]; [by apply endsWith_piece|].
  rewrite join_cons2, endsWith_app, endsWith_cons.
  - by apply IH.
  - apply join_names_nonempty; [done|by constructor; inversion Hl].
Qed.

(** The absolute path made of the names [l] is normalized. *)
Lemma normalize_names l :
  Forall (λ w, isName w = true) l → Forall (λ w, split slash w = [w]) l →
  normalize ("/" +:+ Str.join "/" l) = "/" +:+ Str.join "/" l.
Proof.
  intros Hnames Hpieces. destruct (decide (l = [])) as [->|Hl]; [done|].
  change ("/" +:+ Str.join "/" l) with (String slash (Str.join "/" l)).
  unfold normalize. rewrite bool_decide_eq_false_2 by done.
  change (startsWith slash (String slash (Str.join "/" l))) with true.
  cbn [negb]. unfold normalizeSegments.
  rewrite split_cons_sep, split_join by done.
  rewrite foldl_step_names.
  2: { constructor; [done|]. eapply Forall_impl; [exact Hnames|].
       intros w. apply isName_not_dotdot. }
  rewrite filter_cons_False by done. rewrite filter_all by done.
  rewrite bool_decide_eq_false_2 by (by apply join_names_nonempty).
  rewrite endsWith_cons by (by apply join_names_nonempty).
  by rewrite endsWith_join_names, append_nil_r.
Qed.

(** An absolute path that does not end in a slash normalizes to its
    resolved names. *)
Lemma normalize_resolved path :
  startsWith slash path = true → endsWith slash path = false →
  normalize path = "/" +:+ Str.join "/" (resolved path).
Proof.
  intros Habs Hend. unfold normalize. rewrite Habs, Hend.
  rewrite bool_decide_eq_false_2 by (by intros ->).
  change (normalizeSegments (negb true) (split slash path))
    with (resolved path).
  case_bool_decide as Hbody; [by rewrite Hbody|]. by rewrite append_nil_r.
Qed.

Lemma resolved_pieces path : Forall (λ w, split slash w = [w]) (resolved path).
Proof. apply foldl_step_pieces; [constructor|apply split_pieces]. Qed.

End PathMore.

(** ** More about requests *)

Section RequestsMore.
Import Str.
Context (formatBytes : N → string).
Context (toLocaleString : Z → string).
Context (localeCompare : string → string → Z).

Local Abbreviation serve := (handler formatBytes toLocaleString localeCompare).
Local Abbreviation answer := (respond formatBytes toLocaleString localeCompare).

Lemma includes_char_cons c d s :
  includes (String c "") (String d s)
  = bool_decide (c = d) || includes (String c "") s.
Proof. by rewrite includes_cons, isPrefix_cons, andb_true_r. Qed.

(** A string without the separator is one piece. *)
Lemma split_without sep s :
  includes (String sep "") s = false → split sep s = [s].
Proof.
  induction s as [|c s IH]; [done|].
  rewrite includes_char_cons. intros [Hc Hs]%orb_false_iff.
  apply bool_decide_eq_false in Hc. simpl.
  rewrite decide_False by (by intros ->). by rewrite IH.
Qed.

(** A string without [%] decodes to itself. *)
Lemma decode_plain s :
  includes "%" s = false → URI.decodeURIComponent s = Some s.
Proof.
  unfold URI.decodeURIComponent. induction s as [|c s IH]; [done|].
  rewrite includes_char_cons. intros [Hc Hs]%orb_false_iff.
  apply bool_decide_eq_false in Hc. cbn [URI.decode].
  rewrite decide_False by (by intros ->). by rewrite IH.
Qed.

(** What stands before the first [?] of a request target. *)
Lemma beforeQuery_query path query :
  includes "?" path = false → beforeQuery (path +:+ "?" +:+ query) = path.
Proof.
  intros Hpath. unfold beforeQuery.
  change (path +:+ "?" +:+ query) with (path +:+ String "?" query).
  by rewrite split_app, split_without.
Qed.

Lemma beforeQuery_plain path :
  includes "?" path = false → beforeQuery path = path.
Proof. intros Hpath. unfold beforeQuery. by rewrite split_without. Qed.

(** X1: the query string of a request is not looked at: with and without it
    the handler does the same and answers the same. *)
Theorem query_string_ignored fs rootDir method path query :
  includes "?" path = false →
  serve fs rootDir method (path +:+ "?" +:+ query)
  = serve fs rootDir method path.
Proof.
  intros Hpath. unfold handler.
  by rewrite beforeQuery_query, beforeQuery_plain.
Qed.

(** [respond] for a request that passes the [..] check: the log entry,
    then events and a result that do not depend on the method. *)
Lemma respond_logged fs rootDir urlPath method1 method2 :
  includes ".." urlPath = false →
  ∃ t r,
    answer fs rootDir method1 urlPath = (EvLog method1 urlPath :: t, r)
    ∧ answer fs rootDir method2 urlPath = (EvLog method2 urlPath :: t, r).
Proof.
  intros Hdd. unfold respond. rewrite Hdd. cbn [mbind M_bind emit].
  destruct (_ ≫= _) as [t r]. by exists t, r.
Qed.

(** X2: the request method is only logged: whatever the method, the handler
    makes the same file-system calls and gives the same answer. *)
Theorem method_ignored fs rootDir url method1 method2 :
  (serve fs rootDir method1 url).2 = (serve fs rootDir method2 url).2
  ∧ drop 1 (serve fs rootDir method1 url).1
    = drop 1 (serve fs rootDir method2 url).1
  ∧ fsPath <$> (serve fs rootDir method1 url).1
    = fsPath <$> (serve fs rootDir method2 url).1.
Proof.
  unfold handler. destruct (URI.decodeURIComponent _) as [urlPath|]; [|done].
  destruct (includes ".." urlPath) eqn:Hdd.
  - by rewrite !respond_dotdot.
  - destruct (respond_logged fs rootDir urlPath method1 method2 Hdd)
      as (t & r & -> & ->).
    done.
Qed.

(** *** What is logged *)

Lemma trace_bind (P : event → Prop) {A B} (m : M A) (f : A → M B) :
  Forall P m.1 → (∀ x, m.2 = inr x → Forall P (f x).1) →
  Forall P (m ≫= f).1.
Proof.
  destruct m as [t [e|x]]; cbn; intros Ht Hf; [done|].
  specialize (Hf x eq_refl). destruct (f x) as [t' r]. cbn in *.
  by apply Forall_app.
Qed.

Local Abbreviation calls := (Forall (λ e, is_Some (fsPath e))).

Lemma calls_stat fs path : calls (Fs.stat fs path).1.
Proof. unfold Fs.stat. case_match; by repeat constructor. Qed.

Lemma calls_readFile fs path : calls (Fs.readFile fs path).1.
Proof. unfold Fs.readFile. case_match; by repeat constructor. Qed.

Lemma calls_existsSync fs path : calls (Fs.existsSync fs path).1.
Proof. unfold Fs.existsSync. case_match; by repeat constructor. Qed.

Lemma calls_statSync fs path : calls (Fs.statSync fs path).1.
Proof.
  unfold Fs.statSync. case_match; [constructor|].
  destruct (sys_stat fs path); by repeat constructor.
Qed.

Lemma calls_readdirSync fs path : calls (Fs.readdirSync fs path).1.
Proof.
  unfold Fs.readdirSync. case_match; [constructor|].
  destruct (sys_readdir fs path); by repeat constructor.
Qed.

Lemma calls_mapM {A B} (f : A → M B) xs :
  (∀ x, calls (f x).1) → calls (mapM f xs).1.
Proof.
  intros Hf. induction xs as [|x xs IH]; [constructor|].
  cbn [mapM]. apply trace_bind; [done|]. intros y _.
  apply trace_bind; [done|]. intros; by apply Forall_nil.
Qed.

Lemma calls_listing fs dirPath urlPath :
  calls (generateDirectoryListing formatBytes toLocaleString localeCompare
           fs dirPath urlPath).1.
Proof.
  unfold generateDirectoryListing, listingItems.
  apply trace_bind; [|intros; by apply Forall_nil].
  apply trace_bind; [apply calls_readdirSync|]. intros files _.
  apply trace_bind; [|intros; by apply Forall_nil].
  apply calls_mapM. intros file. unfold makeItem.
  apply trace_bind; [apply calls_statSync|intros; by apply Forall_nil].
Qed.

(** X3: a request is logged once, with its method and its decoded path, before
    any file-system call; a request that is rejected for [..], or whose
    path does not decode, is not logged at all. *)
Theorem logged_unless_rejected fs rootDir method url :
  match URI.decodeURIComponent (beforeQuery url) with
  | Some urlPath =>
      if includes ".." urlPath then (serve fs rootDir method url).1 = []
      else ∃ rest,
             (serve fs rootDir method url).1 = EvLog method urlPath :: rest
             ∧ Forall (λ e, is_Some (fsPath e)) rest
  | None => (serve fs rootDir method url).1 = []
  end.
Proof.
  unfold handler. destruct (URI.decodeURIComponent _) as [urlPath|]; [|done].
  unfold respond. destruct (includes ".." urlPath); [done|].
  cbn [mbind M_bind emit].
  match goal with |- context [let '(_, _) := ?k in _] => set (rest := k) end.
  assert (calls rest.1) as Hrest.
  { subst rest. apply trace_bind; [apply calls_stat|].
    intros [code|stats] _; [by apply Forall_nil|].
    destruct (isDirectory stats).
    - apply trace_bind; [apply calls_existsSync|]. intros [] _.
      + apply trace_bind; [apply calls_readFile|].
        intros [code|data] _; by apply Forall_nil.
      + apply trace_bind; [apply calls_listing|intros; by apply Forall_nil].
    - apply trace_bind; [apply calls_readFile|].
      intros [code|data] _; by apply Forall_nil. }
  destruct rest as [t r]. by exists t.
Qed.

(** *** NUL bytes *)

Lemma hasNul_split_Exists sep s :
  sep ≠ nul → Fs.hasNul s = true →
  Exists (λ w, Fs.hasNul w = true) (split sep s).
Proof.
  intros Hsep. induction s as [|c s IH]; [done|].
  rewrite hasNul_cons. intros Hs. simpl.
  destruct (decide (c = sep)) as [->|Hc].
  - rewrite bool_decide_eq_false_2 in Hs by done.
    apply Exists_cons_tl, IH, Hs.
  - destruct (split sep s) as [|w ws] eqn:Hsplit;
      [by apply split_nonempty in Hsplit|].
    apply orb_true_iff in Hs as [Hs|Hs].
    + apply Exists_cons_hd. by rewrite hasNul_cons, Hs.
    + apply IH, Exists_cons in Hs as [Hw|Hws].
      * apply Exists_cons_hd. by rewrite hasNul_cons, Hw, orb_true_r.
      * by apply Exists_cons_tl.
Qed.

(** A NUL byte of a path without [..] segments is still there once the
    path is joined to an absolute path. *)
Lemma hasNul_join_kept a b :
  startsWith slash a = true →
  Forall (λ seg, seg ≠ "..") (split slash b) →
  Fs.hasNul b = true → Fs.hasNul (Path.join a b) = true.
Proof.
  intros Habs Hb Hnul.
  apply (hasNul_split_Exists slash) in Hnul; [|done].
  apply Exists_exists in Hnul as (w & Hin & Hw).
  assert (w ∈ Path.segments (Path.join a b)) as Hseg.
  { rewrite segments_join by done. apply elem_of_app. right.
    apply list_elem_of_filter. split; [|done].
    unfold Path.isName.
    by repeat (rewrite bool_decide_eq_false_2; [|by intros ->]). }
  destruct (Fs.hasNul (Path.join a b)) eqn:Hjoin; [done|].
  apply (hasNul_split slash) in Hjoin. rewrite Forall_forall in Hjoin.
  apply list_elem_of_filter in Hseg as [_ Hseg]. apply Hjoin in Hseg.
  congruence.
Qed.

(** X4: a request whose decoded path holds a NUL byte never gets to the file
    system: it is rejected for [..], or [fs.stat] throws on the path before
    any system call is made. *)
Theorem nul_byte_never_looked_up fs rootDir method url urlPath :
  startsWith slash rootDir = true →
  URI.decodeURIComponent (beforeQuery url) = Some urlPath →
  Fs.hasNul urlPath = true →
  serve fs rootDir method url = ([], inr forbidden)
  ∨ serve fs rootDir method url
    = ([EvLog method urlPath],
       inl (InvalidArgValue (Path.join rootDir urlPath))).
Proof.
  intros Habs Hdec Hnul. unfold handler. rewrite Hdec.
  destruct (includes ".." urlPath) eqn:Hdd.
  - left. by apply respond_dotdot.
  - right. unfold respond, Fs.stat. rewrite Hdd.
    rewrite hasNul_join_kept; [done..| |done].
    apply includes_dotdot_split in Hdd.
    eapply Forall_impl; [exact Hdd|]. by intros seg Hseg ->.
Qed.

(** *** The links of a listing *)

Lemma entryName_piece file : entryName file = true → split slash file = [file].
Proof.
  unfold entryName. intros [_ Hslash%negb_true_iff]%andb_true_iff.
  by apply includes_slash_split.
Qed.

Lemma entryName_isName file : entryName file = true → Path.isName file = true.
Proof. unfold entryName. by intros [? _]%andb_true_iff. Qed.

(** The path of a child, joined to an absolute path after a path that has
    no [..] segment. *)
Lemma join_join_name a b file :
  startsWith slash a = true →
  Forall (λ seg, seg ≠ "..") (split slash b) →
  entryName file = true →
  Path.join (Path.join a b) file
  = "/" +:+ Str.join "/"
              (Path.resolved a
               ++ filter (λ seg, Path.isName seg = true) (split slash b)
               ++ [file]).
Proof.
  intros Habs Hb Hfile.
  destruct (join_absolute a b Habs) as [Habs' Hres].
  rewrite join_name by auto using entryName_piece, entryName_isName.
  by rewrite Hres, segments_join, <- app_assoc.
Qed.

(** Joining to the root the link of a child gives the path the listing
    looked at for the child. *)
Lemma join_link rootDir urlPath file :
  startsWith slash rootDir = true →
  startsWith slash urlPath = true →
  Forall (λ seg, seg ≠ "..") (split slash urlPath) →
  entryName file = true →
  Path.join rootDir (Path.join urlPath file)
  = Path.join (Path.join rootDir urlPath) file.
Proof.
  intros Hroot Hurl Hsegs Hfile.
  pose proof (entryName_piece _ Hfile) as Hpiece.
  pose proof (entryName_isName _ Hfile) as Hname.
  assert (Path.resolved urlPath
          = filter (λ seg, Path.isName seg = true) (split slash urlPath))
    as Hurlres.
  { unfold Path.resolved, Path.normalizeSegments.
    by rewrite foldl_step_names. }
  rewrite (join_join_name rootDir urlPath file) by done.
  rewrite (join_name urlPath file) by done.
  set (names := Path.resolved urlPath ++ [file]).
  assert (Forall (λ w, Path.isName w = true) names) as Hnames.
  { apply Forall_app. split; [apply resolved_isName|by repeat constructor]. }
  assert (Forall (λ w, split slash w = [w]) names) as Hpieces.
  { apply Forall_app. split; [apply resolved_pieces|by repeat constructor]. }
  assert (names ≠ []) as Hne by (by destruct (Path.resolved urlPath)).
  unfold Path.join.
  rewrite (bool_decide_eq_false_2 (rootDir = "")) by (by intros ->).
  rewrite bool_decide_eq_false_2 by done.
  change (rootDir +:+ "/" +:+ "/" +:+ Str.join "/" names)
    with (rootDir +:+ String slash (String slash (Str.join "/" names))).
  rewrite normalize_resolved.
  - do 2 f_equal. unfold Path.resolved at 1. unfold Path.normalizeSegments.
    rewrite split_app, foldl_app, split_cons_sep, split_join by done.
    rewrite foldl_step_names.
    2: { constructor; [done|]. eapply Forall_impl; [exact Hnames|].
         intros w. apply isName_not_dotdot. }
    rewrite filter_cons_False by done. rewrite filter_all by done.
    subst names. by rewrite Hurlres.
  - by apply startsWith_absolute in Hroot as [rest ->].
  - rewrite endsWith_app, !endsWith_cons;
      [by apply endsWith_join_names|by apply join_names_nonempty|done].
Qed.

(** X5: the link of a child in a listing leads back to the child: joined to
    the root, it is the path the listing looked at for that child. *)
Theorem listing_link_names_child rootDir urlPath file stat :
  startsWith slash rootDir = true →
  startsWith slash urlPath = true →
  includes ".." urlPath = false →
  entryName file = true →
  Path.join rootDir (href (itemOf formatBytes urlPath file stat))
  = Path.join (Path.join rootDir urlPath) file.
Proof.
  intros Hroot Hurl Hdd Hfile. cbn [href itemOf].
  apply join_link; auto using no_dotdot_segments.
Qed.

(** X6: a file shown in a listing can be fetched through its link, as long
    as the link holds no [%], no [?] and no [..]: the request whose target
    is the link is answered 200 with the content of the file. *)
Theorem listed_file_served_through_link
    fs rootDir method urlPath file stat data :
  let link := href (itemOf formatBytes urlPath file stat) in
  let child := Path.join (Path.join rootDir urlPath) file in
  startsWith slash rootDir = true →
  startsWith slash urlPath = true →
  includes ".." urlPath = false →
  entryName file = true →
  includes "%" link = false →
  includes "?" link = false →
  includes ".." link = false →
  Fs.hasNul child = false →
  sys_stat fs child = inr stat →
  isDirectory stat = false →
  sys_readFile fs child = inr data →
  serve fs rootDir method link
  = ([EvLog method link; EvStat child; EvReadFile child],
     inr (ok (mimeTypeOf child) data)).
Proof.
  intros link child Hroot Hurl Hdd Hfile Hpercent Hquery Hdots Hnul Hstat
    Hdir Hread.
  assert (Path.join rootDir link = child) as Hchild
    by (apply join_link; auto using no_dotdot_segments).
  unfold handler. rewrite beforeQuery_plain, decode_plain by done.
  rewrite (respond_file _ _ _ _ _ _ _ stat) by (by rewrite ?Hchild).
  cbn zeta. by rewrite Hchild, Hread.
Qed.

End RequestsMore.

(** ** The command line of serve-here *)

Section CommandLine.
Import Str Num ServeHere.

(** [path.resolve] in an absolute working directory gives the absolute
    path of some resolved names. *)
Lemma resolve_resolved cwd arg :
  startsWith slash cwd = true →
  ∃ path, resolve cwd arg = "/" +:+ Str.join "/" (Path.resolved path).
Proof.
  intros Hcwd. unfold resolve.
  assert (cwd ≠ "") as Hne by (by intros ->).
  case_bool_decide.
  - rewrite bool_decide_eq_false_2, Hcwd by done. by eexists.
  - destruct (startsWith slash arg); [by eexists|].
    rewrite bool_decide_eq_false_2, Hcwd by done. by eexists.
Qed.

Lemma resolve_canonical cwd arg :
  startsWith slash cwd = true →
  startsWith slash (resolve cwd arg) = true
  ∧ Path.normalize (resolve cwd arg) = resolve cwd arg.
Proof.
  intros Hcwd. destruct (resolve_resolved cwd arg Hcwd) as [path ->].
  split; [done|].
  apply normalize_names; [apply resolved_isName|apply resolved_pieces].
Qed.

(** What the loop of [parseArgs] keeps: a property [I] of the options that
    holds at the start and that every assignment of the loop keeps, for
    the arguments the assignment can be made from, holds at the end. *)
Lemma parseLoop_invariant cwd (all : list string) (I : options → Prop) :
  (∀ o flag, flag ∈ all → isHelp flag = true → I o →
     I {| port := port o; dir := dir o; open := open o; help := true |}) →
  (∀ o flag, flag ∈ all → isOpen flag = true → I o →
     I {| port := port o; dir := dir o; open := true; help := help o |}) →
  (∀ o flag value, flag ∈ all → isPort flag = true → value ∈ all → I o →
     I {| port := orElse (parseInt value) (Int 3000); dir := dir o;
          open := open o; help := help o |}) →
  (∀ o flag, flag ∈ all → isPort flag = true → I o →
     I {| port := Int 3000; dir := dir o; open := open o; help := help o |}) →
  (∀ o flag value, flag ∈ all → isDirFlag flag = true → value ∈ all → I o →
     I {| port := port o; dir := resolve cwd value; open := open o;
          help := help o |}) →
  (∀ o arg, arg ∈ all → startsWith "-" arg = false →
     isNaN (parseInt arg) = false → I o →
     I {| port := parseInt arg; dir := dir o; open := open o;
          help := help o |}) →
  ∀ args o o', args ⊆ all → I o → parseLoop cwd args o = Some o' → I o'.
Proof.
  intros Hhelp Hopen Hport Hport' Hdir Harg args.
  remember (length args) as n eqn:Hn.
  revert args Hn. induction n as [n IH] using lt_wf_ind.
  intros [|arg rest] -> o o' Hsub Ho; [by intros [= <-]|].
  assert (arg ∈ all) as Hin by (apply Hsub; left).
  assert (rest ⊆ all) as Hrest by (intros x Hx; apply Hsub; by right).
  cbn [parseLoop].
  destruct (isHelp arg) eqn:?.
  { intros Hrun.
    eapply (IH (length rest)); [simpl; lia|done|done| |exact Hrun]. eauto. }
  destruct (isPort arg) eqn:?.
  { destruct rest as [|value rest].
    - intros [= <-]. by eapply Hport'.
    - assert (value ∈ all) by (apply Hrest; left).
      assert (rest ⊆ all) by (intros x Hx; apply Hrest; by right).
      intros Hrun.
      eapply (IH (length rest)); [simpl; lia|done|done| |exact Hrun]. eauto. }
  destruct (isDirFlag arg) eqn:?.
  { destruct rest as [|value rest]; [done|].
    assert (value ∈ all) by (apply Hrest; left).
    assert (rest ⊆ all) by (intros x Hx; apply Hrest; by right).
    intros Hrun.
    eapply (IH (length rest)); [simpl; lia|done|done| |exact Hrun]. eauto. }
  destruct (isOpen arg) eqn:?.
  { intros Hrun.
    eapply (IH (length rest)); [simpl; lia|done|done| |exact Hrun]. eauto. }
  destruct (negb (startsWith "-" arg)) eqn:Hdash.
  - apply negb_true_iff in Hdash.
    destruct (negb (isNaN (parseInt arg))) eqn:Hnan; intros Hrun.
    + apply negb_true_iff in Hnan.
      eapply (IH (length rest)); [simpl; lia|done|done| |exact Hrun]. eauto.
    + eapply (IH (length rest)); [simpl; lia|done|done|exact Ho|exact Hrun].
  - intros Hrun.
    eapply (IH (length rest)); [simpl; lia|done|done|exact Ho|exact Hrun].
Qed.

(** X7: the port [parseArgs] returns is a number, never [NaN]: 3000, or what
    [parseInt] reads in one of the arguments. *)
Theorem parseArgs_port cwd args o :
  parseArgs cwd args = Some o →
  port o ≠ NaN
  ∧ (port o = Int 3000 ∨ ∃ arg, arg ∈ args ∧ port o = parseInt arg).
Proof.
  apply (parseLoop_invariant cwd args
           (λ o, port o ≠ NaN
                 ∧ (port o = Int 3000
                    ∨ ∃ arg, arg ∈ args ∧ port o = parseInt arg))).
  - by intros o0 flag _ _ Ho.
  - by intros o0 flag _ _ Ho.
  - intros o0 flag value _ _ Hvalue _. cbn [port].
    destruct (parseInt value) as [|[| |]|] eqn:Hparse; cbn [orElse];
      (split; [done|]); rewrite <- ?Hparse; eauto.
  - intros o0 flag _ _ _. cbn [port]. auto.
  - by intros o0 flag value _ _ _ Ho.
  - intros o0 arg Harg _ Hnan _. cbn [port]. split; [|eauto].
    by destruct (parseInt arg).
  - done.
  - cbn [port]. auto.
Qed.

Lemma parseLoop_dir_canonical cwd args o o' :
  startsWith slash cwd = true →
  startsWith slash (dir o) = true ∧ Path.normalize (dir o) = dir o →
  parseLoop cwd args o = Some o' →
  startsWith slash (dir o') = true ∧ Path.normalize (dir o') = dir o'.
Proof.
  intros Hcwd Ho.
  apply (parseLoop_invariant cwd args
           (λ o, startsWith slash (dir o) = true
                 ∧ Path.normalize (dir o) = dir o));
    [by intros ? ? _ _ ?|by intros ? ? _ _ ?|by intros ? ? ? _ _ _ ?
    |by intros ? ? _ _ ?| |by intros ? ? _ _ _ ?|done|done].
  intros; by apply resolve_canonical.
Qed.

(** X8: the directory [parseArgs] returns is an absolute, normalized path when
    the working directory is one; if, besides, no argument is [-d] or
    [--dir], it is the working directory. *)
Theorem parseArgs_dir cwd args o :
  startsWith slash cwd = true → Path.normalize cwd = cwd →
  parseArgs cwd args = Some o →
  startsWith slash (dir o) = true ∧ Path.normalize (dir o) = dir o
  ∧ (Forall (λ arg, isDirFlag arg = false) args → dir o = cwd).
Proof.
  intros Hcwd Hnorm Hparse.
  destruct (parseLoop_dir_canonical cwd args
              {| port := Int 3000; dir := cwd; open := false; help := false |}
              o Hcwd (conj Hcwd Hnorm) Hparse)
    as [Habs Hcanon].
  split_and!; [done..|].
  intros Hnone. rewrite Forall_forall in Hnone. revert Hparse.
  apply (parseLoop_invariant cwd args (λ o, dir o = cwd));
    [by intros ? ? _ _ ?|by intros ? ? _ _ ?|by intros ? ? ? _ _ _ ?
    |by intros ? ? _ _ ?| |by intros ? ? _ _ _ ?|done|done].
  intros o0 flag value Hflag%Hnone. congruence.
Qed.

(** X9: [parseArgs] fails in one way only: [-d] or [--dir] is the last
    argument, so the directory is missing. *)
Theorem parseArgs_fails cwd args :
  parseArgs cwd args = None →
  ∃ init flag, args = init ++ [flag] ∧ isDirFlag flag = true.
Proof.
  unfold parseArgs. generalize {| port := Int 3000; dir := cwd;
                                  open := false; help := false |}.
  remember (length args) as n eqn:Hn.
  revert args Hn. induction n as [n IH] using lt_wf_ind.
  intros [|arg rest] -> o; [done|]. cbn [parseLoop].
  assert (∀ o, parseLoop cwd rest o = None →
               ∃ init flag, arg :: rest = init ++ [flag]
                            ∧ isDirFlag flag = true) as Hrest.
  { intros o0 Hnone.
    destruct (IH (length rest) ltac:(simpl; lia) rest eq_refl o0 Hnone)
      as (init & flag & -> & Hflag).
    by exists (arg :: init), flag. }
  destruct (isHelp arg); [by apply Hrest|].
  destruct (isPort arg).
  { destruct rest as [|value rest]; [done|]. intros Hnone.
    destruct (IH (length rest) ltac:(simpl; lia) rest eq_refl _ Hnone)
      as (init & flag & -> & Hflag).
    by exists (arg :: value :: init), flag. }
  destruct (isDirFlag arg) eqn:Hdir.
  { destruct rest as [|value rest]; [by exists [], arg|]. intros Hnone.
    destruct (IH (length rest) ltac:(simpl; lia) rest eq_refl _ Hnone)
      as (init & flag & -> & Hflag).
    by exists (arg :: value :: init), flag. }
  destruct (isOpen arg); [by apply Hrest|].
  destruct (negb (startsWith "-" arg)); [|by apply Hrest].
  destruct (negb (isNaN (parseInt arg))); by apply Hrest.
Qed.

(** X10: the browser is opened only when [-o] or [--open] is among the
    arguments, and then on the local address with the port of the
    options. *)
Theorem browser_opened_only_on_request
    (numberToString : number → string) cwd args o platform nets command :
  parseArgs cwd args = Some o →
  (listening numberToString o platform nets).2 = Some command →
  (∃ arg, arg ∈ args ∧ isOpen arg = true)
  ∧ command = openBrowser platform
                ("http://localhost:" +:+ numberToString (port o)).
Proof.
  intros Hparse. cbn [listening snd].
  destruct (open o) eqn:Hopen; [|done]. intros [= <-]. split; [|done].
  revert Hparse Hopen.
  apply (parseLoop_invariant cwd args
           (λ o, open o = true → ∃ arg, arg ∈ args ∧ isOpen arg = true));
    [by intros ? ? _ _ ?| |by intros ? ? ? _ _ _ ?
    |by intros ? ? _ _ ?|by intros ? ? ? _ _ _ ?|by intros ? ? _ _ _ ?
    |done|done].
  intros o0 flag Hin Hflag _ _. eauto.
Qed.

Lemma firstExternal4_None addresses :
  firstExternal4 addresses = None ↔ Forall (λ net, external4 net = false) addresses.
Proof.
  induction addresses as [|net addresses IH]; [by split; [constructor|]|].
  cbn [firstExternal4]. rewrite Forall_cons. destruct (external4 net).
  - split; [done|by intros [? _]].
  - rewrite IH. split; [by split|by intros [_ ?]].
Qed.

Lemma firstExternal4_Some addresses found :
  firstExternal4 addresses = Some found →
  ∃ earlier net later,
    addresses = earlier ++ net :: later
    ∧ Forall (λ net, external4 net = false) earlier
    ∧ external4 net = true ∧ found = ip net.
Proof.
  induction addresses as [|net addresses IH]; [done|]. cbn [firstExternal4].
  destruct (external4 net) eqn:Hnet.
  - intros [= <-]. by exists [], net, addresses.
  - intros (earlier & net' & later & -> & Hearlier & Hnet' & ->)%IH.
    exists (net :: earlier), net', later. split_and!; [done| |done..].
    by constructor.
Qed.

(** X11: [getLocalIP] gives the address of the first external IPv4 address, in
    the order of the interfaces and of their addresses; it gives
    [localhost] when no interface has one. *)
Theorem getLocalIP_first_external nets :
  (Forall (λ entry, Forall (λ net, external4 net = false) entry.2) nets
   ∧ getLocalIP nets = "localhost")
  ∨ (∃ before name earlier net later after,
       nets = before ++ (name, earlier ++ net :: later) :: after
       ∧ Forall (λ entry, Forall (λ net, external4 net = false) entry.2) before
       ∧ Forall (λ net, external4 net = false) earlier
       ∧ external4 net = true
       ∧ getLocalIP nets = ip net).
Proof.
  unfold getLocalIP. induction nets as [|[name addresses] nets IH].
  - left. by split.
  - cbn [scanInterfaces].
    destruct (firstExternal4 addresses) as [found|] eqn:Hfirst.
    + right.
      apply firstExternal4_Some in Hfirst
        as (earlier & net & later & -> & Hearlier & Hnet & ->).
      by exists [], name, earlier, net, later, nets.
    + apply firstExternal4_None in Hfirst.
      destruct IH as [[Hnone ->]|
        (before & name' & earlier & net & later & after & -> & Hbefore
         & Hearlier & Hnet & ->)].
      * left. split; [by constructor|done].
      * right. exists ((name, addresses) :: before), name', earlier, net,
          later, after.
        split_and!; [done|by constructor|done..].
Qed.

Section Startup.
Context (formatBytes : N → string).
Context (toLocaleString : Z → string).
Context (localeCompare : string → string → Z).


(** [main] checks nothing and starts nothing when the help is asked for;
    and it ends the process with exit code 1, without starting a server,
    when the directory does not exist. *)
Theorem main_stops_early fs cwd args o :
  parseArgs cwd args = Some o →
  (help o = true → main fs cwd args = ([], Helped [Log helpText]))
  ∧ (help o = false → Fs.hasNul (dir o) = false →
     ∀ code, sys_stat fs (dir o) = inl code →
       ∃ message, main fs cwd args
                  = ([EvExists (dir o)], Exited [Error message] 1)).
Proof.
  intros Hparse. unfold main. rewrite Hparse. split.
  - by intros ->.
  - intros -> Hnul code Hstat. unfold Fs.existsSync.
    rewrite Hnul. cbn. rewrite Hstat. by eexists.
Qed.

End Startup.

End CommandLine.

(** ** ping-hosts *)

Section WhiteSpace.
Import Str Num.

Lemma trimStart_space1 c s :
  isSpace1 c = true → trimStart (String c s) = trimStart s.
Proof. intros Hc. simpl. by rewrite Hc. Qed.

Lemma trimStart_space2 c1 c2 s :
  isSpace1 c1 = false → isSpace2 c1 c2 = true →
  trimStart (String c1 (String c2 s)) = trimStart s.
Proof. intros H1 H2. cbn [trimStart]. by rewrite H1, H2. Qed.

Lemma trimStart_space3 c1 c2 c3 s :
  isSpace1 c1 = false → isSpace2 c1 c2 = false → isSpace3 c1 c2 c3 = true →
  trimStart (String c1 (String c2 (String c3 s))) = trimStart s.
Proof. intros H1 H2 H3. cbn [trimStart]. by rewrite H1, H2, H3. Qed.

Lemma trimStart_kept s : startsWithSpace s = false → trimStart s = s.
Proof.
  destruct s as [|c1 [|c2 [|c3 s]]]; cbn [startsWithSpace trimStart];
    rewrite ?orb_false_r, ?orb_false_iff; intros; destruct_and?;
    by repeat match goal with H : _ = false |- _ => rewrite H; clear H end.
Qed.

(** The cases of [trimStart]: a white space character of one, two or
    three bytes at the start, or none. *)
Lemma trimStart_ind (P : string → Prop) :
  (∀ c s, isSpace1 c = true → P s → P (String c s)) →
  (∀ c1 c2 s, isSpace1 c1 = false → isSpace2 c1 c2 = true →
     P s → P (String c1 (String c2 s))) →
  (∀ c1 c2 c3 s,
     isSpace1 c1 = false → isSpace2 c1 c2 = false →
     isSpace3 c1 c2 c3 = true →
     P s → P (String c1 (String c2 (String c3 s)))) →
  (∀ s, startsWithSpace s = false → P s) →
  ∀ s, P s.
Proof.
  intros H1 H2 H3 H0 s.
  remember (String.length s) as n eqn:Hn. revert s Hn.
  induction n as [n IH] using lt_wf_ind. intros s ->.
  destruct (startsWithSpace s) eqn:Hs; [|by apply H0].
  destruct s as [|c1 s1]; [done|]. cbn [startsWithSpace] in Hs.
  destruct (isSpace1 c1) eqn:E1.
  { apply H1; [done|]. eapply IH; [|done]. simpl; lia. }
  destruct s1 as [|c2 s2]; [done|].
  destruct (isSpace2 c1 c2) eqn:E2.
  { apply H2; [done..|]. eapply IH; [|done]. simpl; lia. }
  destruct s2 as [|c3 s3]; [done|]. simpl in Hs.
  apply H3; [done..|]. eapply IH; [|done]. simpl; lia.
Qed.

Lemma trimStart_startsWithSpace s : startsWithSpace (trimStart s) = false.
Proof.
  induction s as [c s Hc IH|c1 c2 s Hc1 Hc2 IH|c1 c2 c3 s Hc1 Hc2 Hc3 IH|s Hs]
    using trimStart_ind.
  - by rewrite trimStart_space1.
  - by rewrite trimStart_space2.
  - by rewrite trimStart_space3.
  - by rewrite trimStart_kept.
Qed.

(** White space before white space is white space. *)
Lemma trimStart_app x w : trimStart x = "" → trimStart (x +:+ w) = trimStart w.
Proof.
  induction x as [c s Hc IH|c1 c2 s Hc1 Hc2 IH|c1 c2 c3 s Hc1 Hc2 Hc3 IH|s Hs]
    using trimStart_ind.
  - rewrite trimStart_space1 by done. intros Hs.
    rewrite append_cons, trimStart_space1 by done. auto.
  - rewrite trimStart_space2 by done. intros Hs.
    rewrite !append_cons, trimStart_space2 by done. auto.
  - rewrite trimStart_space3 by done. intros Hs.
    rewrite !append_cons, trimStart_space3 by done. auto.
  - rewrite trimStart_kept by done. by intros ->.
Qed.

(** What [trimEnd] drops is white space. *)
Lemma trimEnd_dropped s : ∃ w, s = trimEnd s +:+ w ∧ trimStart w = "".
Proof.
  induction s as [|c s (w & Hs & Hw)]; [by exists ""|].
  cbn [trimEnd]. case_bool_decide as Hall.
  - by exists (String c s).
  - exists w. by rewrite append_cons, <- Hs.
Qed.

Lemma trimEnd_trimEnd s : trimEnd (trimEnd s) = trimEnd s.
Proof.
  induction s as [|c s IH]; [done|].
  cbn [trimEnd]. case_bool_decide as Hall; [done|].
  cbn [trimEnd]. rewrite IH, bool_decide_eq_false_2; [done|].
  intros Hcut. apply Hall.
  destruct (trimEnd_dropped s) as (w & Hs & Hw).
  rewrite Hs at 1. rewrite <- append_cons, trimStart_app by done. done.
Qed.

(** Dropping white space at the end brings none to the start. *)
Lemma trimEnd_startsWithSpace s :
  startsWithSpace s = false → startsWithSpace (trimEnd s) = false.
Proof.
  destruct s as [|c1 [|c2 [|c3 s]]]; cbn [startsWithSpace trimEnd];
    rewrite ?orb_false_r, ?orb_false_iff; intros; destruct_and?;
    repeat case_bool_decide; cbn [startsWithSpace];
    rewrite ?orb_false_r, ?orb_false_iff; by split_and?.
Qed.

(** [trim] is idempotent. *)
Lemma trim_trim s : trim (trim s) = trim s.
Proof.
  unfold trim.
  rewrite (trimStart_kept (trimEnd (trimStart s))).
  - apply trimEnd_trimEnd.
  - apply trimEnd_startsWithSpace, trimStart_startsWithSpace.
Qed.

Lemma includes_char_trimStart c s :
  includes (String c "") s = false →
  includes (String c "") (trimStart s) = false.
Proof.
  induction s as [d s Hd IH|c1 c2 s Hc1 Hc2 IH|c1 c2 c3 s Hc1 Hc2 Hc3 IH|s Hs]
    using trimStart_ind.
  - rewrite trimStart_space1 by done. intros ?%includes_tail. auto.
  - rewrite trimStart_space2 by done.
    intros ?%includes_tail%includes_tail. auto.
  - rewrite trimStart_space3 by done.
    intros ?%includes_tail%includes_tail%includes_tail. auto.
  - by rewrite trimStart_kept.
Qed.

Lemma includes_char_trimEnd c s :
  includes (String c "") s = false →
  includes (String c "") (trimEnd s) = false.
Proof.
  induction s as [|d s IH]; [done|].
  rewrite includes_char_cons. intros [Hd Hs]%orb_false_iff.
  cbn [trimEnd]. destruct (bool_decide (trimStart _ = "")); [done|].
  rewrite includes_char_cons, Hd. auto.
Qed.

Lemma split_no_sep sep s :
  Forall (λ w, includes (String sep "") w = false) (split sep s).
Proof.
  induction s as [|c s IH]; [by repeat constructor|].
  simpl. case_decide as Hc; [by constructor|].
  destruct (split sep s) as [|w ws] eqn:Hsplit;
    [by apply split_nonempty in Hsplit|].
  apply Forall_cons in IH as [Hw Hws]. constructor; [|done].
  rewrite includes_char_cons, Hw. by rewrite bool_decide_eq_false_2.
Qed.

(** The bytes after the first of a white space character are
    continuation bytes, and no white space starts with one. *)
Lemma isSpace2_continuation c d :
  isSpace2 c d = true → (128 ≤ byte d ≤ 191)%N.
Proof.
  unfold isSpace2. rewrite andb_true_iff, !N.eqb_eq. lia.
Qed.

Lemma isSpace3_continuation c1 c2 c3 :
  isSpace3 c1 c2 c3 = true →
  (128 ≤ byte c2 ≤ 191)%N ∧ (128 ≤ byte c3 ≤ 191)%N.
Proof.
  unfold isSpace3.
  rewrite !orb_true_iff, !andb_true_iff, !orb_true_iff, !andb_true_iff,
    !N.eqb_eq, !N.leb_le.
  lia.
Qed.

Lemma continuation_startsWithSpace d s :
  (128 ≤ byte d ≤ 191)%N → startsWithSpace (String d s) = false.
Proof.
  intros Hd.
  assert (isSpace1 d = false) as H1.
  { unfold isSpace1. apply orb_false_iff.
    rewrite andb_false_iff, !N.leb_gt, N.eqb_neq. lia. }
  assert (∀ e, isSpace2 d e = false) as H2.
  { intros e. unfold isSpace2. apply andb_false_iff.
    rewrite !N.eqb_neq. lia. }
  assert (∀ e f, isSpace3 d e f = false) as H3.
  { intros e f. apply not_true_is_false. unfold isSpace3.
    rewrite !orb_true_iff, !andb_true_iff, !orb_true_iff, !andb_true_iff,
      !N.eqb_eq, !N.leb_le.
    lia. }
  destruct s as [|e [|f s]]; cbn [startsWithSpace];
    by rewrite H1, ?H2, ?H3.
Qed.

Lemma space_head d s :
  trimStart (String d s) = "" → ¬ (128 ≤ byte d ≤ 191)%N.
Proof.
  intros Hall Hd.
  by rewrite trimStart_kept in Hall by by apply continuation_startsWithSpace.
Qed.

(** White space after a string that starts with none brings none to the
    start. *)
Lemma startsWithSpace_app h w :
  h ≠ "" → startsWithSpace h = false → trimStart w = "" →
  startsWithSpace (h +:+ w) = false.
Proof.
  intros Hne Hh Hw.
  destruct h as [|c1 [|c2 [|c3 h]]]; [done| | |done].
  - cbn [startsWithSpace] in Hh. apply orb_false_iff in Hh as [H1 _].
    destruct w as [|d w]; [by rewrite append_nil_r; cbn; rewrite H1|].
    pose proof (space_head _ _ Hw) as Hd.
    change (String c1 "" +:+ String d w) with (String c1 (String d w)).
    cbn [startsWithSpace]. rewrite H1. cbn [orb].
    destruct (isSpace2 c1 d) eqn:H2.
    { by apply isSpace2_continuation in H2. }
    destruct w as [|e w]; [done|]. cbn [orb].
    destruct (isSpace3 c1 d e) eqn:H3; [|done].
    by apply isSpace3_continuation in H3 as [? _].
  - cbn [startsWithSpace] in Hh. apply orb_false_iff in Hh as [H1 Hh].
    apply orb_false_iff in Hh as [H2 _].
    destruct w as [|d w]; [by rewrite append_nil_r; cbn; rewrite H1, H2|].
    pose proof (space_head _ _ Hw) as Hd.
    change (String c1 (String c2 "") +:+ String d w)
      with (String c1 (String c2 (String d w))).
    cbn [startsWithSpace]. rewrite H1, H2. cbn [orb].
    destruct (isSpace3 c1 c2 d) eqn:H3; [|done].
    by apply isSpace3_continuation in H3 as [_ ?].
Qed.

Lemma trimStart_app_inv x w :
  trimStart w = "" → trimStart (x +:+ w) = "" → trimStart x = "".
Proof.
  intros Hw.
  induction x as [c s Hc IH|c1 c2 s Hc1 Hc2 IH|c1 c2 c3 s Hc1 Hc2 Hc3 IH|s Hs]
    using trimStart_ind.
  - rewrite append_cons, !trimStart_space1 by done. auto.
  - rewrite !append_cons, !trimStart_space2 by done. auto.
  - rewrite !append_cons, !trimStart_space3 by done. auto.
  - destruct (decide (s = "")) as [->|Hne]; [done|].
    rewrite trimStart_kept by by apply startsWithSpace_app.
    by destruct s.
Qed.

Lemma trimEnd_space w : trimStart w = "" → trimEnd w = "".
Proof.
  intros Hw. destruct w as [|c w]; [done|].
  cbn [trimEnd]. by rewrite bool_decide_eq_true_2.
Qed.

(** White space at the end is dropped, all of it and nothing else. *)
Lemma trimEnd_app x w : trimStart w = "" → trimEnd (x +:+ w) = trimEnd x.
Proof.
  intros Hw. induction x as [|c x IH]; [by apply trimEnd_space|].
  rewrite append_cons. cbn [trimEnd]. rewrite IH.
  rewrite <- append_cons.
  destruct (decide (trimStart (String c x) = "")) as [Hx|Hx].
  - rewrite !bool_decide_eq_true_2; [done..|].
    by rewrite trimStart_app.
  - rewrite !bool_decide_eq_false_2; [done..|].
    intros Hcut. by apply Hx, (trimStart_app_inv _ w).
Qed.

Lemma trim_fixed h : trim h = h → startsWithSpace h = false ∧ trimEnd h = h.
Proof.
  intros Hh.
  assert (startsWithSpace h = false) as Hstart.
  { rewrite <- Hh. apply trimEnd_startsWithSpace, trimStart_startsWithSpace. }
  split; [done|]. unfold trim in Hh. by rewrite trimStart_kept in Hh.
Qed.

(** [trim] drops the white space around a string that has none at its
    ends. *)
Lemma trim_padding before h after :
  trimStart before = "" → trimStart after = "" → trim h = h →
  trim (before +:+ h +:+ after) = h.
Proof.
  intros Hbefore Hafter [Hstart Hend]%trim_fixed. unfold trim.
  rewrite trimStart_app by done.
  destruct (decide (h = "")) as [->|Hne].
  { change ("" +:+ after) with after. by rewrite Hafter. }
  rewrite trimStart_kept by by apply startsWithSpace_app.
  by rewrite trimEnd_app.
Qed.

End WhiteSpace.

Section HostsFile.
Import Str Num PingHosts.

Lemma split_join_sep sep l :
  l ≠ [] → Forall (λ w, split sep w = [w]) l →
  split sep (Str.join (String sep "") l) = l.
Proof.
  induction l as [|w l IH]; [done|]. intros _ [Hw Hl]%Forall_cons.
  destruct l as [|w' l]; [done|].
  change (Str.join (String sep "") (w :: w' :: l))
    with (w +:+ String sep (Str.join (String sep "") (w' :: l))).
  by rewrite split_app, Hw, IH.
Qed.

(** X13: the hosts read from a file are clean: none is empty, none starts with
    [#], and none has white space at its ends (it is its own [trim]) or a
    newline inside. *)
Theorem parseHosts_entries content h :
  h ∈ parseHosts content →
  h ≠ "" ∧ startsWith "#" h = false ∧ trim h = h
  ∧ includes (String newline "") h = false.
Proof.
  unfold parseHosts.
  intros [[Hne Hcomment] (line & -> & Hline)%list_elem_of_fmap]%list_elem_of_filter.
  split_and!; [done..|apply trim_trim|].
  apply includes_char_trimEnd, includes_char_trimStart.
  by apply (proj1 (Forall_forall _ _) (split_no_sep newline content)).
Qed.

(** X14: a hosts file is read back as it was written: host names, one on each
    line, without white space at their ends, none empty and none starting
    with [#], give the list of these names, with or without a newline
    after the last one. *)
Theorem parseHosts_round_trip hosts :
  Forall (λ h, h ≠ "" ∧ startsWith "#" h = false ∧ trim h = h
               ∧ includes (String newline "") h = false) hosts →
  parseHosts (Str.join (String newline "") hosts) = hosts
  ∧ parseHosts (Str.join (String newline "") hosts +:+ String newline "")
    = hosts.
Proof.
  intros Hhosts.
  assert (Forall (λ h, split newline h = [h]) hosts) as Hpieces.
  { eapply Forall_impl; [exact Hhosts|].
    intros h (_ & _ & _ & Hh). by apply split_without. }
  assert (trim <$> hosts = hosts) as Htrim.
  { clear Hpieces. induction Hhosts as [|h hosts (_ & _ & Hh & _) _ IH];
      [done|]. cbn. by rewrite Hh, IH. }
  assert (filter (λ line, line ≠ "" ∧ startsWith "#" line = false) hosts
          = hosts) as Hfilter.
  { apply filter_all. eapply Forall_impl; [exact Hhosts|].
    by intros h (? & ? & _). }
  unfold parseHosts. destruct (decide (hosts = [])) as [->|Hne].
  { split; reflexivity. }
  split.
  - by rewrite split_join_sep, Htrim.
  - rewrite split_app, split_join_sep by done.
    rewrite fmap_app, filter_app, Htrim, Hfilter.
    change (split newline "") with [""]. cbn [fmap list_fmap].
    change (trim "") with "".
    rewrite filter_cons_False by (by intros [? _]). by rewrite app_nil_r.
Qed.

(** X15: white space around a host on its line is ignored, the carriage
    return of a file with CRLF line ends for one: lines that are host
    names with white space before and after them give these names. *)
Theorem parseHosts_ignores_padding lines hosts :
  Forall2 (λ line h,
             includes (String newline "") line = false
             ∧ ∃ before after,
                 line = before +:+ h +:+ after
                 ∧ trimStart before = "" ∧ trimStart after = "")
          lines hosts →
  Forall (λ h, h ≠ "" ∧ startsWith "#" h = false ∧ trim h = h) hosts →
  parseHosts (Str.join (String newline "") lines) = hosts.
Proof.
  intros Hlines Hhosts.
  assert (Forall (λ line, split newline line = [line]) lines) as Hpieces.
  { clear Hhosts. induction Hlines as [|line h lines hosts [Hline _] _ IH];
      constructor; [by apply split_without|done]. }
  assert (trim <$> lines = hosts) as Htrim.
  { clear Hpieces.
    induction Hlines
      as [|line h lines hosts (_ & before & after & -> & Hb & Ha) _ IH];
      [done|].
    apply Forall_cons in Hhosts as [(_ & _ & Hh) Hhosts].
    cbn. by rewrite trim_padding, IH. }
  assert (filter (λ line, line ≠ "" ∧ startsWith "#" line = false) hosts
          = hosts) as Hfilter.
  { apply filter_all. eapply Forall_impl; [exact Hhosts|].
    by intros h (? & ? & _). }
  unfold parseHosts. destruct (decide (lines = [])) as [->|Hne].
  { by apply Forall2_nil_inv_l in Hlines as ->. }
  by rewrite split_join_sep, Htrim.
Qed.

End HostsFile.

Section ResponseTime.
Import Str Num PingHosts.

Lemma append_assoc (a b c : string) : (a +:+ b) +:+ c = a +:+ (b +:+ c).
Proof. induction a as [|x a IH]; [done|]. cbv [String.append]. fold String.append. by rewrite IH. Qed.

(** [spanDigits] cuts a string in two: digits, and a rest that does not
    start with a digit. *)
Lemma spanDigits_spec s ds rest :
  spanDigits s = (ds, rest) →
  s = ds +:+ rest ∧ allDigits ds = true
  ∧ match rest with String c _ => digit c = None | "" => True end.
Proof.
  revert ds rest. induction s as [|c s IH]; intros ds rest; simpl.
  - by intros [= <- <-].
  - destruct (digit c) as [d|] eqn:Hc.
    + destruct (spanDigits s) as [ds' rest'] eqn:Hs. intros [= <- <-].
      destruct (IH _ _ eq_refl) as (-> & Hds & Hrest). split_and!; [done| |done].
      simpl. rewrite Hc, Hds. by rewrite bool_decide_eq_true_2.
    + by intros [= <- <-].
Qed.

Lemma spanDigits_app ds rest :
  allDigits ds = true →
  match rest with String c _ => digit c = None | "" => True end →
  spanDigits (ds +:+ rest) = (ds, rest).
Proof.
  intros Hds Hrest. induction ds as [|c ds IH]; simpl.
  - destruct rest as [|c rest]; [done|]. simpl. by rewrite Hrest.
  - simpl in Hds. apply andb_true_iff in Hds as [Hc Hds].
    apply bool_decide_eq_true in Hc as [d Hc]. rewrite Hc.
    change (String.append ds rest) with (ds +:+ rest). by rewrite IH.
Qed.

(** The text of a match at the start of a string. *)
Lemma matchTimeAt_group s group :
  matchTimeAt s = Some group →
  ∃ whole fraction,
    whole ≠ "" ∧ allDigits whole = true ∧ allDigits fraction = true
    ∧ (group = whole ∨ group = whole +:+ "." +:+ fraction)
    ∧ ∃ before after, s = before +:+ group +:+ after.
Proof.
  unfold matchTimeAt.
  destruct s as [|t [|i [|m [|e [|sep rest]]]]]; try done.
  case_match; [|done].
  destruct (spanDigits rest) as [whole rest1] eqn:Hwhole.
  apply spanDigits_spec in Hwhole as (-> & Hwhole & Hrest1).
  destruct (bool_decide (whole = "")) eqn:Hne; [done|].
  apply bool_decide_eq_false in Hne.
  destruct rest1 as [|c rest1].
  - done.
  - destruct (decide (c = "."%char)) as [->|Hc].
    + destruct (spanDigits rest1) as [fraction rest3] eqn:Hfraction.
      apply spanDigits_spec in Hfraction as (-> & Hfraction & _).
      case_match; [|done]. intros [= <-].
      exists whole, fraction. split_and!; [done..|by right|].
      exists (String t (String i (String m (String e (String sep ""))))),
        rest3.
      by rewrite !append_assoc.
    + assert (spanDigits (String c rest1) = ("", String c rest1)) as Hnone.
      { simpl. by rewrite Hrest1. }
      assert (match String c rest1 with
              | String "." rest2 => (".", rest2)
              | _ => ("", String c rest1)
              end = ("", String c rest1)) as ->.
      { destruct c as [[] [] [] [] [] [] [] []]; try done. }
      rewrite Hnone. case_match; [|done]. intros [= <-].
      change ("" +:+ "") with "". rewrite append_nil_r.
      exists whole, "". split_and!; [done..|by left|].
      exists (String t (String i (String m (String e (String sep ""))))),
        (String c rest1).
      done.
Qed.

(** X16: the response time that is reported is a decimal number of the output
    of ping: one digit or more, or these with a dot and any digits after
    them. *)
Theorem matchTime_decimal stdout group :
  matchTime stdout = Some group →
  ∃ whole fraction,
    whole ≠ "" ∧ allDigits whole = true ∧ allDigits fraction = true
    ∧ (group = whole ∨ group = whole +:+ "." +:+ fraction)
    ∧ ∃ before after, stdout = before +:+ group +:+ after.
Proof.
  induction stdout as [|c stdout IH].
  - done.
  - cbn [matchTime].
    destruct (matchTimeAt (String c stdout)) as [g|] eqn:Hat.
    + intros [= <-]. by apply matchTimeAt_group.
    + intros (whole & fraction & ? & ? & ? & ? & before & after & ->)%IH.
      exists whole, fraction. split_and!; [done..|].
      by exists (String c before), after.
Qed.

End ResponseTime.

Section PingRuns.
Import Str Num PingHosts.
Context (platform : string).
Context (exec : nat → string → option string).
Context (readFile : string → string + string).
Context {number : Type}.
Context (parseFloat : string → number).
Context (below : number → Z → bool).
Context (numberToString : number → string).

Local Abbreviation run :=
  (main platform exec readFile parseFloat below numberToString).
Local Abbreviation select := (selectHosts readFile).
Local Abbreviation check :=
  (checkHosts platform exec parseFloat below numberToString).
Local Abbreviation ping := (pingHost platform exec parseFloat).

Lemma filter_length_all {A} (P : A → Prop) `{∀ x, Decision (P x)} l :
  length (filter P l) = length l ↔ Forall P l.
Proof.
  split; [|intros Hall; by rewrite filter_all].
  induction l as [|x l IH]; [by constructor|].
  destruct (decide (P x)) as [Hx|Hx].
  - rewrite filter_cons_True by done. simpl. intros [= Hl].
    constructor; auto.
  - rewrite filter_cons_False by done. simpl.
    pose proof (length_filter P l). lia.
Qed.

Lemma success_ping i h :
  success (ping i h) = true ↔ is_Some (exec i (pingCommand platform h)).
Proof.
  unfold pingHost. by destruct (exec i _).
Qed.

(** What finding the hosts does before the check: it prints or reads the
    hosts file, nothing else. *)
Lemma select_found args found hosts :
  select args = inr (found, hosts) →
  Forall (λ e, match e with Print _ | ReadFile _ => True | _ => False end)
         found.
Proof.
  unfold selectHosts. intros Hsel.
  repeat (case_match; simplify_eq); repeat constructor.
Qed.

Lemma select_stopped args stopped :
  select args = inl stopped →
  last stopped = Some (Exit 1)
  ∧ Forall (λ e, match e with Exec _ _ => False | _ => True end) stopped.
Proof.
  unfold selectHosts. intros Hsel.
  repeat (case_match; simplify_eq); split; by repeat constructor.
Qed.

(** The check of one host or more: the commands, the lines of the
    results, the summary and the exit. *)
Lemma check_hosts hosts :
  hosts ≠ [] →
  ∃ start lines,
    check hosts
    = Print start
      :: imap (λ i h, Exec (pingCommand platform h)
                           (exec i (pingCommand platform h))) hosts
      ++ (Print <$> lines)
      ++ [Exit (if bool_decide
                     (Forall (λ r, success r = true) (imap ping hosts))
                then 0 else 1)].
Proof.
  intros Hne. unfold checkHosts. rewrite bool_decide_eq_false_2 by done.
  cbv zeta.
  set (results := imap ping hosts).
  eexists _, ((formatResult below numberToString <$> results) ++ [_; _]).
  rewrite fmap_app, <- list_fmap_compose. cbn [app fmap list_fmap].
  rewrite <- !app_assoc. cbn [app].
  do 6 f_equal.
  pose proof (length_filter (λ r, success r = true) results) as Hle.
  pose proof (filter_length_all (λ r, success r = true) results) as Hall.
  repeat case_bool_decide; try done.
  - exfalso. apply Hall in H0. lia.
  - exfalso. apply H0, Hall. lia.
Qed.

Lemma Forall_success hosts :
  Forall (λ r, success r = true) (imap ping hosts)
  ↔ ∀ c out,
      Exec c out
      ∈ imap (λ i h, Exec (pingCommand platform h)
                          (exec i (pingCommand platform h))) hosts →
      is_Some out.
Proof.
  rewrite Forall_forall. split.
  - intros Hall c out (i & h & [= -> ->] & Hi)%elem_of_lookup_imap.
    apply success_ping, Hall, elem_of_lookup_imap. eauto.
  - intros Hall r (i & h & -> & Hi)%elem_of_lookup_imap.
    apply success_ping, (Hall (pingCommand platform h)),
      elem_of_lookup_imap. eauto.
Qed.

(** The commands among what a check does are the ping commands. *)
Lemma check_execs hosts start lines code c out :
  Exec c out
  ∈ Print start
    :: imap (λ i h, Exec (pingCommand platform h)
                         (exec i (pingCommand platform h))) hosts
    ++ (Print <$> lines) ++ [Exit code]
  ↔ Exec c out
    ∈ imap (λ i h, Exec (pingCommand platform h)
                        (exec i (pingCommand platform h))) hosts.
Proof.
  rewrite elem_of_cons, !elem_of_app, list_elem_of_fmap,
    list_elem_of_singleton.
  split; [|by auto]. by intros [?|[?|[(? & ? & _)|?]]].
Qed.


(** The hosts that are checked, when the run comes to the check. *)
Lemma select_hosts args found hosts h :
  select args = inr (found, hosts) → h ∈ hosts →
  if bool_decide ("-f" ∈ args) || bool_decide ("--file" ∈ args)
  then ∃ path content,
         args !! S (findIndex args) = Some path
         ∧ readFile path = inr content ∧ h ∈ parseHosts content
  else if bool_decide (args = []) then h ∈ DEFAULT_HOSTS else h ∈ args.
Proof.
  unfold selectHosts. rewrite Nat.add_1_r.
  destruct (bool_decide ("-f" ∈ args) || bool_decide ("--file" ∈ args)).
  - destruct (args !! S (findIndex args)) as [path|] eqn:Hpath; [|done].
    destruct (readFile path) as [message|content] eqn:Hread.
    + by repeat (case_match; simplify_eq).
    + intros Hsel Hin. exists path, content.
      by repeat (case_match; simplify_eq).
  - repeat case_bool_decide; by intros [= <- <-].
Qed.

(** X18: every command that is run is the ping of a host that was asked for:
    a host of the hosts file when the arguments hold [-f] or [--file],
    the file being the argument after the first of them; else one of the
    arguments; else, without arguments, one of the three default hosts.
    With [-h] or [--help] among the arguments no command is run. *)
Theorem commands_ping_chosen_hosts args c out :
  Exec c out ∈ run args →
  ("-h" ∉ args) ∧ ("--help" ∉ args)
  ∧ ∃ i h,
      c = pingCommand platform h ∧ out = exec i c
      ∧ if bool_decide ("-f" ∈ args) || bool_decide ("--file" ∈ args)
        then ∃ path content,
               args !! S (findIndex args) = Some path
               ∧ readFile path = inr content ∧ h ∈ parseHosts content
        else if bool_decide (args = []) then h ∈ DEFAULT_HOSTS
        else h ∈ args.
Proof.
  unfold main.
  destruct (bool_decide ("-h" ∈ args) || bool_decide ("--help" ∈ args))
    eqn:Hhelp.
  { by intros [=]%list_elem_of_singleton. }
  apply orb_false_iff in Hhelp as [Hh Hhelp].
  apply bool_decide_eq_false in Hh, Hhelp.
  destruct (select args) as [stopped|[found hosts]] eqn:Hsel.
  { apply select_stopped in Hsel as [_ Hnone]. intros Hin.
    by apply (proj1 (Forall_forall _ _) Hnone) in Hin. }
  intros Hin. split_and!; [done..|].
  apply elem_of_app in Hin as [Hin|Hin].
  { apply select_found in Hsel.
    by apply (proj1 (Forall_forall _ _) Hsel) in Hin. }
  destruct (decide (hosts = [])) as [->|Hne].
  { unfold checkHosts in Hin. simpl in Hin.
    apply elem_of_cons in Hin as [?|Hin]; [done|].
    by apply list_elem_of_singleton in Hin. }
  destruct (check_hosts hosts Hne) as (start & lines & Hcheck).
  rewrite Hcheck in Hin.
  apply check_execs, elem_of_lookup_imap in Hin as (i & h & [= -> ->] & Hi).
  exists i, h. split_and!; [done..|].
  eapply select_hosts; [done|]. by eapply list_elem_of_lookup_2.
Qed.

Lemma findIndex_lookup args path :
  args !! S (findIndex args) = Some path → path ∈ args.
Proof. intros Hpath. by eapply list_elem_of_lookup_2. Qed.


End PingRuns.

(** ** The properties on sample inputs *)

Section SampleRuns.
Import Str Num ServeHere Sample SampleRuns.

Local Abbreviation F := Sample.formatBytes.
Local Abbreviation T := Sample.toLocaleString.
Local Abbreviation L := Sample.localeCompare.

Lemma query_string_ignored_witness :
  includes "?" "/docs/" = false
  ∧ handle "GET" ("/docs/" +:+ "?" +:+ "lang=en?x") = handle "GET" "/docs/".
Proof.
  split; [reflexivity|].
  apply (query_string_ignored F T L fs rootDir "GET" "/docs/" "lang=en?x").
  reflexivity.
Defined.

Lemma nul_byte_never_looked_up_witness :
  startsWith slash rootDir = true
  ∧ URI.decodeURIComponent (beforeQuery "/a%00b")
    = Some ("/a" +:+ String nul "b")
  ∧ Fs.hasNul ("/a" +:+ String nul "b") = true
  ∧ (handle "GET" "/a%00b" = ([], inr forbidden)
     ∨ handle "GET" "/a%00b"
       = ([EvLog "GET" ("/a" +:+ String nul "b")],
          inl (InvalidArgValue
                 (Path.join rootDir ("/a" +:+ String nul "b"))))).
Proof.
  do 3 (split; [reflexivity|]).
  apply (nul_byte_never_looked_up F T L fs rootDir "GET" "/a%00b"
           ("/a" +:+ String nul "b")); reflexivity.
Defined.

Lemma listing_link_names_child_witness :
  startsWith slash rootDir = true
  ∧ startsWith slash "/docs/" = true
  ∧ includes ".." "/docs/" = false
  ∧ entryName "guide.md" = true
  ∧ Path.join rootDir
      (href (itemOf F "/docs/" "guide.md" (Build_Stats false 7 0)))
    = Path.join (Path.join rootDir "/docs/") "guide.md".
Proof.
  do 4 (split; [reflexivity|]).
  apply (listing_link_names_child F rootDir "/docs/" "guide.md"
           (Build_Stats false 7 0)); reflexivity.
Defined.

Lemma listed_file_served_through_link_witness :
  startsWith slash rootDir = true
  ∧ startsWith slash "/docs/" = true
  ∧ includes ".." "/docs/" = false
  ∧ entryName "guide.md" = true
  ∧ includes "%" "/docs/guide.md" = false
  ∧ includes "?" "/docs/guide.md" = false
  ∧ includes ".." "/docs/guide.md" = false
  ∧ Fs.hasNul "/srv/www/docs/guide.md" = false
  ∧ sys_stat fs "/srv/www/docs/guide.md" = inr (Build_Stats false 7 0)
  ∧ sys_readFile fs "/srv/www/docs/guide.md" = inr "# Guide"
  ∧ handle "GET" "/docs/guide.md"
    = ([EvLog "GET" "/docs/guide.md"; EvStat "/srv/www/docs/guide.md";
        EvReadFile "/srv/www/docs/guide.md"],
       inr (ok "text/markdown" "# Guide")).
Proof.
  do 10 (split; [reflexivity|]).
  apply (listed_file_served_through_link F T L fs rootDir "GET" "/docs/"
           "guide.md" (Build_Stats false 7 0) "# Guide"); reflexivity.
Defined.

Lemma parseArgs_port_witness :
  parseArgs cwd ["8080"; "-o"]
    = Some {| port := Int 8080; dir := cwd; open := true; help := false |}
  ∧ Int 8080 ≠ NaN
  ∧ (Int 8080 = Int 3000
     ∨ ∃ arg, arg ∈ ["8080"; "-o"] ∧ Int 8080 = parseInt arg).
Proof.
  split; [reflexivity|].
  apply (parseArgs_port cwd ["8080"; "-o"]
           {| port := Int 8080; dir := cwd; open := true; help := false |}).
  reflexivity.
Defined.

Lemma parseArgs_dir_witness :
  startsWith slash cwd = true
  ∧ Path.normalize cwd = cwd
  ∧ parseArgs cwd ["-d"; "../site/./dist"; "-p"]
    = Some {| port := Int 3000; dir := "/home/site/dist"; open := false;
              help := false |}
  ∧ (startsWith slash "/home/site/dist" = true
     ∧ Path.normalize "/home/site/dist" = "/home/site/dist"
     ∧ (Forall (λ arg, isDirFlag arg = false) ["-d"; "../site/./dist"; "-p"]
        → "/home/site/dist" = cwd)).
Proof.
  do 3 (split; [reflexivity|]).
  apply (parseArgs_dir cwd ["-d"; "../site/./dist"; "-p"]
           {| port := Int 3000; dir := "/home/site/dist"; open := false;
              help := false |}); reflexivity.
Defined.

Lemma parseArgs_fails_witness :
  parseArgs cwd ["8080"; "--dir"] = None
  ∧ ∃ init flag, ["8080"; "--dir"] = init ++ [flag] ∧ isDirFlag flag = true.
Proof.
  split; [reflexivity|].
  apply (parseArgs_fails cwd ["8080"; "--dir"]). reflexivity.
Defined.

Lemma browser_opened_only_on_request_witness :
  parseArgs cwd ["8080"; "-o"]
    = Some {| port := Int 8080; dir := cwd; open := true; help := false |}
  ∧ (listening numberToString
       {| port := Int 8080; dir := cwd; open := true; help := false |}
       platform nets).2
    = Some "xdg-open http://localhost:8080"
  ∧ ((∃ arg, arg ∈ ["8080"; "-o"] ∧ isOpen arg = true)
     ∧ "xdg-open http://localhost:8080"
       = openBrowser platform
           ("http://localhost:" +:+ numberToString (Int 8080))).
Proof.
  do 2 (split; [reflexivity|]).
  apply (browser_opened_only_on_request numberToString cwd ["8080"; "-o"]
           {| port := Int 8080; dir := cwd; open := true; help := false |}
           platform nets "xdg-open http://localhost:8080"); reflexivity.
Defined.


Lemma parseHosts_entries_witness :
  "8.8.8.8" ∈ PingHosts.parseHosts hostsFile
  ∧ ("8.8.8.8" ≠ "" ∧ startsWith "#" "8.8.8.8" = false
     ∧ trim "8.8.8.8" = "8.8.8.8"
     ∧ includes (String PingHosts.newline "") "8.8.8.8" = false).
Proof.
  assert ("8.8.8.8" ∈ PingHosts.parseHosts hostsFile) as Hin.
  { apply (list_elem_of_lookup_2 _ 1). reflexivity. }
  split; [exact Hin|].
  apply (parseHosts_entries hostsFile "8.8.8.8"). exact Hin.
Defined.

Lemma parseHosts_round_trip_witness :
  Forall (λ h, h ≠ "" ∧ startsWith "#" h = false ∧ trim h = h
               ∧ includes (String PingHosts.newline "") h = false)
         ["google.com"; "8.8.8.8"]
  ∧ PingHosts.parseHosts ("google.com" +:+ nl +:+ "8.8.8.8")
    = ["google.com"; "8.8.8.8"]
  ∧ PingHosts.parseHosts ("google.com" +:+ nl +:+ "8.8.8.8" +:+ nl)
    = ["google.com"; "8.8.8.8"].
Proof.
  assert (Forall (λ h, h ≠ "" ∧ startsWith "#" h = false ∧ trim h = h
                       ∧ includes (String PingHosts.newline "") h = false)
                 ["google.com"; "8.8.8.8"]) as Hhosts.
  { repeat constructor; discriminate. }
  split; [exact Hhosts|].
  apply (parseHosts_round_trip ["google.com"; "8.8.8.8"]). exact Hhosts.
Defined.

Lemma parseHosts_ignores_padding_witness :
  Forall2 (λ line h,
             includes (String PingHosts.newline "") line = false
             ∧ ∃ before after,
                 line = before +:+ h +:+ after
                 ∧ trimStart before = "" ∧ trimStart after = "")
          ["google.com" +:+ cr; "  8.8.8.8 "] ["google.com"; "8.8.8.8"]
  ∧ Forall (λ h, h ≠ "" ∧ startsWith "#" h = false ∧ trim h = h)
           ["google.com"; "8.8.8.8"]
  ∧ PingHosts.parseHosts ("google.com" +:+ cr +:+ nl +:+ "  8.8.8.8 ")
    = ["google.com"; "8.8.8.8"].
Proof.
  assert (Forall2 (λ line h,
             includes (String PingHosts.newline "") line = false
             ∧ ∃ before after,
                 line = before +:+ h +:+ after
                 ∧ trimStart before = "" ∧ trimStart after = "")
          ["google.com" +:+ cr; "  8.8.8.8 "] ["google.com"; "8.8.8.8"])
    as Hlines.
  { constructor; [|constructor; [|constructor]].
    - split; [reflexivity|]. exists "", cr. by split_and!.
    - split; [reflexivity|]. exists "  ", " ". by split_and!. }
  assert (Forall (λ h, h ≠ "" ∧ startsWith "#" h = false ∧ trim h = h)
                 ["google.com"; "8.8.8.8"]) as Hhosts.
  { repeat constructor; discriminate. }
  split_and!; [exact Hlines|exact Hhosts|].
  apply (parseHosts_ignores_padding ["google.com" +:+ cr; "  8.8.8.8 "]
           ["google.com"; "8.8.8.8"] Hlines Hhosts).
Defined.

Lemma matchTime_decimal_witness :
  PingHosts.matchTime
    "64 bytes from 8.8.8.8: icmp_seq=1 ttl=117 time=12.3 ms" = Some "12.3"
  ∧ ∃ whole fraction,
      whole ≠ "" ∧ PingHosts.allDigits whole = true
      ∧ PingHosts.allDigits fraction = true
      ∧ ("12.3" = whole ∨ "12.3" = whole +:+ "." +:+ fraction)
      ∧ ∃ before after,
          "64 bytes from 8.8.8.8: icmp_seq=1 ttl=117 time=12.3 ms"
          = before +:+ "12.3" +:+ after.
Proof.
  split; [reflexivity|].
  apply (matchTime_decimal
           "64 bytes from 8.8.8.8: icmp_seq=1 ttl=117 time=12.3 ms" "12.3").
  reflexivity.
Defined.

Lemma commands_ping_chosen_hosts_witness :
  PingHosts.Exec "ping -c 1 -W 1 8.8.8.8"
    (Some "64 bytes from 8.8.8.8: icmp_seq=1 ttl=117 time=12.3 ms")
  ∈ run ["-f"; "hosts.txt"]
  ∧ ("-h" ∉ ["-f"; "hosts.txt"]) ∧ ("--help" ∉ ["-f"; "hosts.txt"])
  ∧ ∃ i h,
      "ping -c 1 -W 1 8.8.8.8" = PingHosts.pingCommand platform h
      ∧ Some "64 bytes from 8.8.8.8: icmp_seq=1 ttl=117 time=12.3 ms"
        = exec i "ping -c 1 -W 1 8.8.8.8"
      ∧ ∃ path content,
          ["-f"; "hosts.txt"] !! 1%nat = Some path
          ∧ readFile path = inr content
          ∧ h ∈ PingHosts.parseHosts content.
Proof.
  assert (PingHosts.Exec "ping -c 1 -W 1 8.8.8.8"
            (Some "64 bytes from 8.8.8.8: icmp_seq=1 ttl=117 time=12.3 ms")
          ∈ run ["-f"; "hosts.txt"]) as Hin.
  { apply (list_elem_of_lookup_2 _ 3). reflexivity. }
  split; [exact Hin|].
  apply (commands_ping_chosen_hosts platform exec readFile parseFloat below
           parseFloat ["-f"; "hosts.txt"] _ _ Hin).
Defined.



End SampleRuns.

(** ** free-memory *)

Section FreeMemoryOptions.
Import FreeMemory.

(** An argument is one option at most. *)
Lemma option_cases arg :
  let kinds := (isHelp arg, isClear arg, isSwap arg, isAll arg, isWatch arg) in
  kinds = (true, false, false, false, false)
  ∨ kinds = (false, true, false, false, false)
  ∨ kinds = (false, false, true, false, false)
  ∨ kinds = (false, false, false, true, false)
  ∨ kinds = (false, false, false, false, true)
  ∨ kinds = (false, false, false, false, false).
Proof.
  unfold isHelp, isClear, isSwap, isAll, isWatch.
  repeat case_bool_decide; subst; try done; cbn; tauto.
Qed.

(** The loop over the arguments ends with flags only when every argument
    is one of the options that set a flag, and the flags are those that
    were set before or by one of the arguments. *)
Lemma options_flags args f f' :
  options args f = inr f' →
  Forall (λ arg, isClear arg || isSwap arg || isAll arg || isWatch arg = true)
         args
  ∧ do_cache f'
    = do_cache f || existsb (λ arg, isClear arg || isAll arg) args
  ∧ do_swap f' = do_swap f || existsb (λ arg, isSwap arg || isAll arg) args
  ∧ do_watch f' = do_watch f || existsb isWatch args.
Proof.
  revert f. induction args as [|arg rest IH]; intros f; cbn [options].
  - intros [= <-]. by rewrite !orb_false_r.
  - cbn [existsb]. rewrite Forall_cons.
    destruct (option_cases arg) as [Hk|[Hk|[Hk|[Hk|[Hk|Hk]]]]];
      injection Hk as -> -> -> -> ->; try done;
      intros (Hrest & -> & -> & ->)%IH; cbn [do_cache do_swap do_watch orb];
      by rewrite ?orb_true_r.
Qed.

(** X21: the first argument that is not an option that sets a flag ends the
    run: the help with exit code 0 for [-h] or [--help], else the
    complaint with exit code 1.  The memory is not displayed and nothing
    is cleared, whatever options stand before or after that argument. *)
Theorem first_other_argument_stops args before arg after :
  args = before ++ arg :: after →
  Forall (λ arg, isClear arg || isSwap arg || isAll arg || isWatch arg = true)
         before →
  isClear arg || isSwap arg || isAll arg || isWatch arg = false →
  main args
  = if isHelp arg then Exits [ShowHelp] 0
    else Exits [Echo ("Unknown option: " +:+ arg)] 1.
Proof.
  intros -> Hbefore Harg. unfold main.
  generalize {| do_cache := false; do_swap := false; do_watch := false |}.
  induction Hbefore as [|a before Ha _ IH]; intros f; cbn [app options].
  - apply orb_false_iff in Harg as [Harg Hwatch].
    apply orb_false_iff in Harg as [Harg Hall].
    apply orb_false_iff in Harg as [Hclear Hswap].
    rewrite Hclear, Hswap, Hall, Hwatch. by destruct (isHelp arg).
  - destruct (option_cases a) as [Hk|[Hk|[Hk|[Hk|[Hk|Hk]]]]];
      injection Hk as Hhelp Hclear Hswap Hall Hwatch;
      rewrite Hhelp, Hclear, Hswap, Hall, Hwatch in *; try done; apply IH.
Qed.

Lemma options_stopped args f stopped :
  options args f = inl stopped → ∃ steps code, stopped = Exits steps code.
Proof.
  revert f. induction args as [|arg rest IH]; intros f; cbn [options];
    [done|].
  repeat case_match; try (by apply IH); intros [= <-]; eauto.
Qed.

Lemma existsb_Exists {A} (p : A → bool) l :
  existsb p l = true ↔ Exists (λ x, p x = true) l.
Proof.
  induction l as [|x l IH]; cbn [existsb].
  - split; [done|]. by intros ?%Exists_nil.
  - by rewrite orb_true_iff, Exists_cons, IH.
Qed.

(** X22: the run comes to its end only for a command line made of [-c],
    [--clear], [-s], [--swap], [-a] and [--all].  It then displays the
    memory and clears the cache exactly when [-c], [--clear], [-a] or
    [--all] is among the arguments, the swap exactly when [-s], [--swap],
    [-a] or [--all] is; without arguments it displays the memory and
    does nothing else. *)
Theorem clears_what_was_asked args steps :
  main args = Returns steps →
  Forall (λ arg, isClear arg || isSwap arg || isAll arg = true) args
  ∧ (ClearCache ∈ steps
     ↔ Exists (λ arg, isClear arg || isAll arg = true) args)
  ∧ (ClearSwap ∈ steps
     ↔ Exists (λ arg, isSwap arg || isAll arg = true) args)
  ∧ head steps = Some DisplayMemory
  ∧ (steps = [DisplayMemory] ↔ args = []).
Proof.
  unfold main.
  destruct (options args _) as [stopped|f] eqn:Hoptions.
  { intros ->. by apply options_stopped in Hoptions as (? & ? & ?). }
  apply options_flags in Hoptions as (Hargs & Hcache & Hswap & Hwatch).
  cbn [do_cache do_swap do_watch orb] in Hcache, Hswap, Hwatch.
  destruct (do_watch f); [done|]. intros [= <-].
  symmetry in Hwatch.
  assert (Forall (λ arg, isClear arg || isSwap arg || isAll arg = true) args)
    as Hclears.
  { clear Hcache Hswap. induction Hargs as [|arg rest Harg _ IH];
      [done|].
    cbn [existsb] in Hwatch. apply orb_false_iff in Hwatch as [Hw Hrest].
    rewrite Hw, orb_false_r in Harg. constructor; auto. }
  rewrite <- !existsb_Exists, <- Hcache, <- Hswap.
  split_and!; [done| | |done|].
  - destruct (do_cache f), (do_swap f); cbn;
      rewrite ?elem_of_cons, ?elem_of_nil; intuition congruence.
  - destruct (do_cache f), (do_swap f); cbn;
      rewrite ?elem_of_cons, ?elem_of_nil; intuition congruence.
  - destruct args as [|arg rest].
    { cbn in Hcache, Hswap. by rewrite Hcache, Hswap. }
    apply Forall_cons in Hclears as [Harg _].
    assert (do_cache f || do_swap f = true) as Hsome.
    { rewrite Hcache, Hswap. cbn [existsb].
      destruct (isClear arg), (isSwap arg), (isAll arg); try done;
        by rewrite ?orb_true_r. }
    split; [|done]. by destruct (do_cache f), (do_swap f).
Qed.

Lemma first_other_argument_stops_witness :
  ["-c"; "--bogus"; "-s"] = ["-c"] ++ "--bogus" :: ["-s"]
  ∧ Forall (λ arg,
              isClear arg || isSwap arg || isAll arg || isWatch arg = true)
           ["-c"]
  ∧ isClear "--bogus" || isSwap "--bogus" || isAll "--bogus"
    || isWatch "--bogus" = false
  ∧ main ["-c"; "--bogus"; "-s"]
    = Exits [Echo "Unknown option: --bogus"] 1.
Proof.
  assert (Forall (λ arg,
              isClear arg || isSwap arg || isAll arg || isWatch arg = true)
           ["-c"]) as Hbefore.
  { repeat constructor. }
  do 3 (split; [done|]).
  apply (first_other_argument_stops ["-c"; "--bogus"; "-s"] ["-c"]
           "--bogus" ["-s"] eq_refl Hbefore eq_refl).
Defined.

Lemma clears_what_was_asked_witness :
  main ["-c"; "--swap"]
  = Returns
      [DisplayMemory; Echo ""; ClearCache; Echo ""; ClearSwap;
       Echo (String newline (Colors.bold +:+ "Updated State:"
                             +:+ Colors.reset));
       DisplayMemory]
  ∧ (Forall (λ arg, isClear arg || isSwap arg || isAll arg = true)
            ["-c"; "--swap"]
     ∧ (ClearCache
        ∈ [DisplayMemory; Echo ""; ClearCache; Echo ""; ClearSwap;
       Echo (String newline (Colors.bold +:+ "Updated State:"
                             +:+ Colors.reset));
       DisplayMemory]
        ↔ Exists (λ arg, isClear arg || isAll arg = true) ["-c"; "--swap"])
     ∧ (ClearSwap
        ∈ [DisplayMemory; Echo ""; ClearCache; Echo ""; ClearSwap;
       Echo (String newline (Colors.bold +:+ "Updated State:"
                             +:+ Colors.reset));
       DisplayMemory]
        ↔ Exists (λ arg, isSwap arg || isAll arg = true) ["-c"; "--swap"])
     ∧ head
         [DisplayMemory; Echo ""; ClearCache; Echo ""; ClearSwap;
       Echo (String newline (Colors.bold +:+ "Updated State:"
                             +:+ Colors.reset));
       DisplayMemory]
       = Some DisplayMemory
     ∧ ([DisplayMemory; Echo ""; ClearCache; Echo ""; ClearSwap;
       Echo (String newline (Colors.bold +:+ "Updated State:"
                             +:+ Colors.reset));
       DisplayMemory]
        = [DisplayMemory]
        ↔ ["-c"; "--swap"] = [])).
Proof.
  split; [reflexivity|].
  apply (clears_what_was_asked ["-c"; "--swap"]). reflexivity.
Defined.

End FreeMemoryOptions.

(** *** A response time is found *)

Section ResponseTimeFound.
Import Str Num PingHosts.

(** No white space starts with a printable ASCII character. *)
Lemma printable_startsWithSpace c s :
  (32 < byte c < 128)%N → startsWithSpace (String c s) = false.
Proof.
  intros Hc.
  assert (isSpace1 c = false) as H1.
  { unfold isSpace1. apply orb_false_iff.
    rewrite andb_false_iff, !N.leb_gt, N.eqb_neq. lia. }
  assert (∀ e, isSpace2 c e = false) as H2.
  { intros e. unfold isSpace2. apply andb_false_iff.
    rewrite !N.eqb_neq. lia. }
  assert (∀ e f, isSpace3 c e f = false) as H3.
  { intros e f. apply not_true_is_false. unfold isSpace3.
    rewrite !orb_true_iff, !andb_true_iff, !orb_true_iff, !andb_true_iff,
      !N.eqb_eq, !N.leb_le.
    lia. }
  destruct s as [|e [|f s]]; cbn [startsWithSpace];
    by rewrite H1, ?H2, ?H3.
Qed.

Lemma digit_printable c d : digit c = Some d → (32 < byte c < 128)%N.
Proof.
  unfold digit. case_match eqn:Hc; [|done]. intros _.
  apply andb_true_iff in Hc as [?%N.leb_le ?%N.leb_le]. lia.
Qed.

(** White space, then [ms]: what stands there starts with no digit and no
    dot, and is the end of the pattern. *)
Lemma unit_head gap after :
  trimStart gap = "" →
  match gap +:+ "ms" +:+ after with
  | String c _ => digit c = None ∧ c ≠ "."%char
  | "" => True
  end
  ∧ matchUnit (gap +:+ "ms" +:+ after) = true.
Proof.
  intros Hgap. split.
  - destruct gap as [|c gap]; [done|]. cbn.
    split.
    + destruct (digit c) as [d|] eqn:Hc; [|done].
      apply digit_printable in Hc.
      by rewrite trimStart_kept in Hgap
        by by apply printable_startsWithSpace.
    + intros ->.
      by rewrite trimStart_kept in Hgap
        by (apply printable_startsWithSpace; cbn; lia).
  - unfold matchUnit. rewrite trimStart_app by done.
    by rewrite trimStart_kept by by destruct after.
Qed.

Lemma matchTimeAt_found sep whole fraction number gap after :
  sep = "="%char ∨ sep = "<"%char →
  whole ≠ "" → allDigits whole = true → allDigits fraction = true →
  number = whole ∨ number = whole +:+ "." +:+ fraction →
  trimStart gap = "" →
  matchTimeAt ("time" +:+ String sep (number +:+ gap +:+ "ms" +:+ after))
  = Some number.
Proof.
  intros Hsep Hne Hwhole Hfraction Hnumber Hgap.
  destruct (unit_head gap after Hgap) as [Hhead Hunit].
  unfold matchTimeAt.
  change ("time" +:+ String sep (number +:+ gap +:+ "ms" +:+ after))
    with (String "t" (String "i" (String "m" (String "e"
            (String sep (number +:+ gap +:+ "ms" +:+ after)))))).
  cbv iota beta.
  assert (letter "t" "t" && letter "i" "i" && letter "m" "m"
          && letter "e" "e"
          && (bool_decide (sep = "="%char) || bool_decide (sep = "<"%char))
          = true) as ->.
  { by destruct Hsep as [-> | ->]. }
  destruct Hnumber as [-> | ->].
  - rewrite spanDigits_app by (done || by destruct (_ +:+ _); [|apply Hhead]).
    rewrite bool_decide_eq_false_2 by done.
    destruct (gap +:+ "ms" +:+ after) as [|c rest] eqn:Hrest; [done|].
    destruct Hhead as [Hdigit Hdot].
    assert (match String c rest with
            | String "." rest2 => (".", rest2)
            | _ => ("", String c rest)
            end = ("", String c rest)) as ->.
    { destruct c as [[] [] [] [] [] [] [] []]; try done. }
    cbn [spanDigits]. rewrite Hdigit, Hunit.
    change ("" +:+ "") with "". by rewrite append_nil_r.
  - rewrite !append_assoc.
    rewrite spanDigits_app by done.
    rewrite bool_decide_eq_false_2 by done.
    change ("." +:+ fraction +:+ gap +:+ "ms" +:+ after)
      with (String "." (fraction +:+ gap +:+ "ms" +:+ after)).
    cbv iota beta.
    rewrite spanDigits_app by (done || by destruct (_ +:+ _); [|apply Hhead]).
    by rewrite Hunit.
Qed.

(** X20: a response time in the output of ping is found: where the output
    holds [time=] or [time<], a decimal number, any white space and [ms],
    a time is reported; it is that number when the output starts
    there. *)
Theorem matchTime_finds before sep whole fraction number gap after :
  sep = "="%char ∨ sep = "<"%char →
  whole ≠ "" → allDigits whole = true → allDigits fraction = true →
  number = whole ∨ number = whole +:+ "." +:+ fraction →
  trimStart gap = "" →
  matchTime ("time" +:+ String sep (number +:+ gap +:+ "ms" +:+ after))
  = Some number
  ∧ is_Some (matchTime (before +:+ "time"
                        +:+ String sep (number +:+ gap +:+ "ms" +:+ after))).
Proof.
  intros Hsep Hne Hwhole Hfraction Hnumber Hgap.
  pose proof (matchTimeAt_found sep whole fraction number gap after
                Hsep Hne Hwhole Hfraction Hnumber Hgap) as Hat.
  assert (matchTime ("time" +:+ String sep (number +:+ gap +:+ "ms" +:+ after))
          = Some number) as Hfirst.
  { change ("time" +:+ String sep (number +:+ gap +:+ "ms" +:+ after))
      with (String "t" ("ime" +:+ String sep (number +:+ gap +:+ "ms" +:+ after))).
    cbn [matchTime].
    change (String "t" ("ime" +:+ String sep (number +:+ gap +:+ "ms" +:+ after)))
      with ("time" +:+ String sep (number +:+ gap +:+ "ms" +:+ after)).
    by rewrite Hat. }
  split; [done|].
  induction before as [|c before IH].
  { change (is_Some (matchTime
      ("time" +:+ String sep (number +:+ gap +:+ "ms" +:+ after)))).
    by rewrite Hfirst. }
  rewrite append_cons. cbn [matchTime].
  destruct (matchTimeAt (String c _)); [by eexists|exact IH].
Qed.

Lemma matchTime_finds_witness :
  ("="%char = "="%char ∨ "="%char = "<"%char)
  ∧ "12" ≠ ""
  ∧ allDigits "12" = true
  ∧ allDigits "3" = true
  ∧ ("12.3" = "12" ∨ "12.3" = "12" +:+ "." +:+ "3")
  ∧ trimStart " " = ""
  ∧ (matchTime ("time" +:+ String "=" ("12.3" +:+ " " +:+ "ms" +:+ ""))
     = Some "12.3"
     ∧ is_Some
         (matchTime
            ("64 bytes from 8.8.8.8: icmp_seq=1 ttl=117 " +:+ "time"
             +:+ String "=" ("12.3" +:+ " " +:+ "ms" +:+ "")))).
Proof.
  assert ("12.3" = "12" ∨ "12.3" = "12" +:+ "." +:+ "3") as Hnumber.
  { right. reflexivity. }
  assert ("="%char = "="%char ∨ "="%char = "<"%char) as Hsep.
  { left. reflexivity. }
  split; [exact Hsep|]. split; [discriminate|].
  do 2 (split; [reflexivity|]). split; [exact Hnumber|].
  split; [reflexivity|].
  apply (matchTime_finds "64 bytes from 8.8.8.8: icmp_seq=1 ttl=117 "
           "=" "12" "3" "12.3" " " "" Hsep);
    [discriminate|reflexivity|reflexivity|exact Hnumber|reflexivity].
Defined.

End ResponseTimeFound.
